(* ===== verification/_CoqProject ===== *)
-Q . S2P
Prelude.v
JsString.v
UserContext.v
Dispatch.v
Speech.v
Recognition.v
Home.v
Render.v
HomeRun.v
HomeInv.v
Modes.v
HomeLive.v
HomeBounds.v
HomeStreams.v
Page.v
HomeTraces.v
