(* ===== verification/Prelude.v ===== *)
(** * A verification development of VirtualAssistant_Frontend

    The repository is a React front end for a voice assistant. Two source
    files carry its behaviour:

    - [src/src/context/UserContext.jsx]: the user-session provider. It keeps
      [userData] (the signed-in profile or [null]) and three image slots,
      fetches the profile once on mount ([handleCurrentUser]) and exposes
      [getGeminiResponse], the one call to the remote assistant service.
    - [src/src/pages/Home.jsx]: the voice-interaction coordinator. It keeps two
      mutable refs ([isSpeakingRef], [isRecognizingRef]), a ref to the
      browser's continuous speech recogniser, the closure flag [isMounted] and
      four pieces of React state ([listening], [userText], [aiText], [ham]).
      Its handlers ([startRecognition], [speak], [handleCommand], the
      recogniser's [onstart]/[onend]/[onerror]/[onresult], the utterance's
      [onend], the mount effect and its cleanup, [handleLogOut]) are the
      program.

    How the parts interact: the recogniser delivers a final transcript to
    [onresult]; when its lower-cased text contains the lower-cased wake word
    ([userData.assistantName]), recognition is stopped and the transcript is
    sent through [getGeminiResponse]; the reply goes to [handleCommand], which
    speaks the response ([speak]) and opens the URL its [type] calls for; the
    utterance's [onend] re-arms recognition after 800 ms. The recogniser's
    [onend] and [onerror] re-arm it after 1000 ms unless the assistant is
    speaking (and, for [onerror], unless the code is ["aborted"]).

    ** Files, in dependency order, and what they model

    - [Prelude] (this file): the notation scope [js_scope] ([===] and
      [truthy]), the tactics [invc], [case_if], [split_str_eq] and
      [js_crush], the hint databases [js] and [js_rw], the string and list
      lemmas the components share, and [ascii_forall], which proves a
      decidable property of every character by one [vm_compute] over the 256
      code points.
    - [JsString]: the ECMAScript built-ins the code calls, on strings whose
      characters are the code points U+0000..U+00FF: [toLowerCase], [trim],
      [includes], [encodeURIComponent] (UTF-8 escapes for code points above
      127) and [js_str] ([String(undefined)]); [decodeURIComponent] is the
      reference inverse. Lemmas that check the model against ECMAScript:
      the two-sided specification of [trim], the round trip of
      [encodeURIComponent], the URL safety of its output,
      the shape of its UTF-8 escapes, and the agreement of [includes] with
      the Standard Library's [String.index] (on which the wake-word test
      rests).
    - [UserContext]: the provider's record [ctx] and setters,
      [handleCurrentUser], the requests of [getGeminiResponse] and of logout,
      Home's [handleLogOut] (it writes [userData]) and the history read of
      Home's render. HTTP outcomes are [http_result] values the environment
      chooses.
    - [Dispatch]: the URL assignments of [handleCommand] ([command_url], a
      sequence of independent [if]s as in lines 66-72) and the popup check
      ([open_window]); [intent_target] is the spec's table (section 4.4).
      Theorems: [command_url_refines], the refinement of the table by the
      code, and [search_query_roundtrip]: the search URLs carry the user's
      input as one URL-safe query value that decodes back to it.
    - [Speech]: the synthesis engine as the spec's section 4.3 describes it
      (a queue of utterances with a cancelled flag; [cancel], [speak], the
      end event) and what Home builds: [make_utterance] (locale ["hi-IN"],
      the first voice of that locale by [find_voice]), [greeting],
      [cancel_and_speak].
    - [Recognition]: the class [Capture], the contract Home relies on from
      the recogniser (spec section 4.2) as operations and laws on a state
      type, and [web_speech], the Web Speech life cycle (idle, starting,
      running, stopping, errored) as its instance.
    - [Home]: the coordinator's state [home] (one record: refs, React state,
      recogniser, synthesis engine, clock and timers, outstanding requests,
      logs of requests, opened windows, warnings and uncaught exceptions)
      and one definition per handler, each in the order of the code's
      statements, in a Section over any [Capture] instance. Theorems: the
      wake-word test, [onresult] with and without a match, the guard of
      [startRecognition], the restart policy of [onerror], and [on_reply]
      for malformed and well-formed replies.
    - [Render]: the JSX of Home (lines 147-176) as [render], a function of
      the provider's current profile and of [ham], [userText], [aiText]
      ([None]: the [TypeError] of line 161), and the menu's [onClick]
      handlers. Theorems: what the view shows (one gif, the caption, the
      menu class), and that the apology of a malformed reply never reaches
      the caption.
    - [HomeRun]: the browser's event loop: [event] (mount, unmount, ticks,
      the earliest timer, the recogniser's four events, the resolution of
      the [i]-th outstanding request, the end of the [i]-th queued
      utterance, menu clicks), [step] (the handler an event runs, [None]
      when the environment cannot produce it), [run] and the inductive
      [reachable], with the equivalence of [reachable] and [run].
    - [HomeInv]: the invariant [inv], proved for every reachable state by
      rule induction ([inv_step]) against the [Capture] laws only; from it:
      the recognising flag implies a started session, every request carries
      a wake-word transcript, every opened window is at a dispatcher URL, no
      timer lies in the past. Two more invariants, proved from the effect of
      a step on the timers ([step_timers]) and on the synthesis engine
      ([step_synth]): every pending restart is due within a second, and at
      most one response of [speak] is live in the queue. A step-level
      theorem: only the restart timer starts capture, and only while the
      assistant is not speaking. Per-handler lemmas ([inv_mount] ...
      [inv_menu]) carry the rule induction, one per event.
    - [Modes]: the spec's interaction machine of section 4.1 ([mode]:
      Idle, Listening, Awaiting-Reply, Speaking; [spec_step], labelled by
      the kind of event) and [mode_of], which reads the mode off the
      code's state: the microphone is captured, a request is outstanding,
      [isSpeakingRef] is set ([None] where two hold). Theorem: on the Web
      Speech instance every step of the loop from a reachable state with a
      mode is a step of the machine or one of five races ([race]);
      [HomeTraces] shows that each race happens.
    - [HomeLive]: a second invariant [live_inv] (the speaking flag implies a
      queued response; an idle, quiet, mounted page has a restart pending)
      and, on the Web Speech instance, the liveness of capture: from every
      reachable mounted state some schedule of environment events brings
      the recogniser back to running.
    - [HomeBounds]: termination of the timer callbacks (each firing removes
      one deadline and arms none) and the restart storm: under a recogniser
      that fails every start, [m] due restarts become [m * 2^r] after [r]
      seconds.
    - [HomeStreams]: the outputs as a function of the events: on a mounted
      page every run sends exactly the wake-word transcripts ([heard]) and
      opens exactly the intent table's targets of the well-formed replies
      ([dispatched]), whatever the rest of the state.
    - [Page]: the provider, Home and its menu together: the profile fetch
      sent on mount and its settling, the router showing Home (first render,
      then the mount effect), re-renders that throw and tear the tree down,
      the logout request and its two outcomes, navigation, and the
      browser's recognition constructor (lines 82-83: without one, the
      mount effect throws). Theorems: Home's part of every reachable page is
      reachable in Home's loop; capture never runs without a profile, nor
      on a browser without a recogniser; what the start of the page and
      logout do to it.
    - [HomeTraces]: runs of the Web Speech instance on concrete inputs, each
      a [reachable] state found by [run] and [vm_compute]: the spec's
      scenario and the behaviours the spec forbids but the code allows
      (capture during the reply and its speech,
      restarts and speech after unmount, the greeting race, stale utterance
      ends clearing the speaking flag, each race of [Modes]), and the
      witnesses of the theorems with hypotheses.

    ** Time, fuel and bounds

    Timers are deadlines in milliseconds on a clock [now : nat]; a tick may
    not pass a pending deadline, and the timer event fires the earliest
    deadline first, as the browser's event loop does (all timers run the
    same callback, [startRecognition]). Every definition is structurally
    recursive: there is no fuel. The environment's nondeterminism (which
    event comes next, which outstanding request resolves, which queued
    utterance ends) is the choice of the next [event]; [step] rejects the
    events the engines' life cycles forbid. Liveness is stated as the
    existence of a schedule: the browser's schedule is not fair by
    construction, so no stronger form holds of the model. Naturals are
    unbounded: the code has no machine-width arithmetic (timers are
    milliseconds and list lengths).

    ** Not modelled

    Constant CSS classes, layout and images of the render; the route table
    (it is not in the sources: the environment shows Home once, and a
    navigation unmounts it); the acoustic engines; HTTP transport; code
    points above U+00FF; the recogniser's configuration (lines 85-87:
    continuous, [en-US], no interim results) is not state the code reads
    again: it fixes the engine the [web_speech] instance describes, whose
    sessions deliver any number of final results until [stop] or an error;
    React's batching other than in [handleLogOut]'s
    continuation: [setState] on an unmounted component is a no-op in React,
    while the model records the value, which nothing reads after unmount.
    The image setters of the provider are modelled but nothing in the
    sources calls them.

    A profile always has its [assistantName] and [name] (the [user]
    record's fields are strings): the [TypeError] line 116 would throw on a
    profile without them is not represented. The synthesis engine follows
    the spec's section 4.3: an interrupted utterance fires its end event
    (browsers may report an [interrupted] or [canceled] error event for
    it instead, which Home does not handle). In [web_speech], a
    [stop()] before the [start] event suppresses that event.

    ** What the development leaves open

    The mode refinement is stated on the Web Speech instance: the [Capture]
    contract alone does not fix whether the [start] event or a [result]
    may find the microphone released, and under a contract that allows
    both the list of races grows. States where two of the mode's sources
    hold (the microphone open while a reply is awaited or spoken) have no
    mode; what the code does from them is stated by the trace theorems of
    [HomeTraces] and the invariants, not by the machine. *)

From stdpp Require Export base list strings decidable.
From Stdlib Require Export ZArith Ascii String Lia.

(** [String] exports its own [length]; [length] is the one of lists, and
    the length of a string is written [String.length]. *)
Abbreviation length := Datatypes.length.

Declare Scope js_scope.
Delimit Scope js_scope with js.

(** JavaScript's strict equality on strings, as a boolean. *)
Notation "s '===' t" := (String.eqb s t) (at level 70, no associativity) : js_scope.
(** A JavaScript string is truthy when it is not empty. *)
Notation "'truthy' s" := (negb (String.eqb s EmptyString)) (at level 10) : js_scope.
Open Scope js_scope.

Create HintDb js.
Create Rewrite HintDb js_rw.

(** ** Tactics shared by the development *)

Ltac invc H := inversion H; subst; clear H.

(** Case on the first [if] of the goal, remembering the test. *)
Ltac case_if :=
  match goal with
  | |- context [if ?b then _ else _] => let E := fresh "E" in destruct b eqn:E
  end.

(** Split on whether the string variable [t] equals the first literal it is
    compared with: the [true] case substitutes the literal for [t]. *)
Ltac split_str_eq t :=
  match goal with
  | |- context [String.eqb t ?lit] =>
      destruct (String.eqb_spec t lit) as [->|_]
  end.

(** Unfold, split the conditionals of the goal, and close what is left by
    computation, the hypotheses, and the [js] hints. *)
Ltac js_crush :=
  repeat (simpl in *; try case_if);
  try solve [auto with js | congruence | lia].

(** ** Strings *)

(** stdpp makes [String.append] opaque to [simpl]; these are its equations. *)
Lemma str_app_nil_l (a : string) : "" +:+ a = a.
Proof. reflexivity. Qed.

Lemma str_app_cons (c : ascii) (a b : string) : String c a +:+ b = String c (a +:+ b).
Proof. reflexivity. Qed.

Lemma str_app_assoc (a b c : string) : (a +:+ b) +:+ c = a +:+ (b +:+ c).
Proof. induction a as [|x a IH]; [done|]. by rewrite !str_app_cons, IH. Qed.

Lemma str_app_nil_r (a : string) : a +:+ "" = a.
Proof. induction a as [|x a IH]; [done|]. by rewrite str_app_cons, IH. Qed.

Lemma str_length_app (a b : string) :
  String.length (a +:+ b) = String.length a + String.length b.
Proof. induction a as [|x a IH]; [done|]. rewrite str_app_cons. simpl. lia. Qed.

#[export] Hint Rewrite str_app_assoc str_app_nil_r str_app_nil_l str_app_cons : js_rw.
#[export] Hint Resolve String.eqb_refl : js.

Lemma str_eqb_spec (a b : string) : reflect (a = b) (a === b).
Proof. apply String.eqb_spec. Qed.

Lemma str_eqb_true (a b : string) : (a === b) = true -> a = b.
Proof. apply String.eqb_eq. Qed.

Lemma str_eqb_false (a b : string) : (a === b) = false -> a <> b.
Proof. apply String.eqb_neq. Qed.

(** A string built from a list of characters, the form [Forall] reasons on. *)
Fixpoint chars (s : string) : list ascii :=
  match s with
  | EmptyString => []
  | String c s' => c :: chars s'
  end.

Lemma chars_app (a b : string) : chars (a +:+ b) = chars a ++ chars b.
Proof. induction a as [|x a IH]; [done|]. rewrite str_app_cons. simpl. by rewrite IH. Qed.

#[export] Hint Rewrite chars_app : js_rw.

(** ** Characters

    A character is read as its code point [nat_of_ascii c], 0..255.

    Every character satisfies a decidable property when all 256 code points
    do: the check is run once by [vm_compute]. *)
Definition all_chars : list ascii := map ascii_of_nat (seq 0 256).

Lemma all_chars_complete (c : ascii) : c ∈ all_chars.
Proof.
  apply list_elem_of_In, in_map_iff. exists (nat_of_ascii c). split.
  - apply ascii_nat_embedding.
  - apply in_seq. pose proof (nat_ascii_bounded c). lia.
Qed.

Lemma ascii_forall (P : ascii -> bool) :
  forallb P all_chars = true -> forall c, P c = true.
Proof.
  intros H c. eapply forallb_forall; [exact H|].
  apply list_elem_of_In, all_chars_complete.
Qed.

(** ** Lists *)

(** stdpp's [delete i l] removes the [i]-th element: what removing a
    settled request or an ended utterance does. *)
Lemma Forall_snoc {A} (P : A -> Prop) (l : list A) (x : A) :
  Forall P l -> P x -> Forall P (l ++ [x]).
Proof. intros. apply Forall_app; auto. Qed.

#[export] Hint Resolve Forall_delete Forall_snoc list_elem_of_delete_inv : js.
