(* ===== verification/JsString.v ===== *)
(** * ECMAScript string built-ins on Latin-1 strings

    The coordinator calls four built-ins of [String] that decide its
    behaviour: [trim] on the transcript and [toLowerCase] then [includes]
    for the wake-word test ([Home.jsx] line 115-116), and [encodeURIComponent]
    on the user's input inside the search URLs (lines 67-68). They are
    modelled here from the ECMAScript specification, on strings whose
    characters are the code points U+0000..U+00FF (a character [c] is the
    code point [nat_of_ascii c]). Lemmas that check the model against
    ECMAScript: [includes] against the
    substring specification, idempotence of [toLowerCase], the two-sided
    specification of [trim], and for [encodeURIComponent] a round trip
    through [decodeURIComponent], the UTF-8 shape of its escapes and the
    URL safety of its output. *)

From S2P Require Import Prelude.

(** ** [String.prototype.toLowerCase] *)

(** The upper-case letters of Latin-1 with a one-character lower case:
    A..Z and U+00C0..U+00DE without the multiplication sign U+00D7. *)
Definition is_upper (c : ascii) : bool :=
  let n := nat_of_ascii c in
  ((65 <=? n) && (n <=? 90)) || ((192 <=? n) && (n <=? 222) && negb (n =? 215)).

Definition lower_char (c : ascii) : ascii :=
  if is_upper c then ascii_of_nat (nat_of_ascii c + 32) else c.

Fixpoint toLowerCase (s : string) : string :=
  match s with
  | EmptyString => EmptyString
  | String c s' => String (lower_char c) (toLowerCase s')
  end.

(** ** [String.prototype.trim] *)

(** WhiteSpace and LineTerminator code points below U+0100: TAB, LF, VT,
    FF, CR, SPACE and NO-BREAK SPACE. *)
Definition is_ws (c : ascii) : bool :=
  let n := nat_of_ascii c in
  ((9 <=? n) && (n <=? 13)) || (n =? 32) || (n =? 160).

Fixpoint trimStart (s : string) : string :=
  match s with
  | EmptyString => EmptyString
  | String c s' => if is_ws c then trimStart s' else s
  end.

Fixpoint trimEnd (s : string) : string :=
  match s with
  | EmptyString => EmptyString
  | String c s' =>
      let r := trimEnd s' in
      if is_ws c && (r === "") then EmptyString else String c r
  end.

Definition trim (s : string) : string := trimEnd (trimStart s).

(** ** [String.prototype.includes] *)

(** [startsWith s w]: [w] is a prefix of [s]. *)
Fixpoint startsWith (s w : string) : bool :=
  match w, s with
  | EmptyString, _ => true
  | String c w', String d s' => Ascii.eqb c d && startsWith s' w'
  | String _ _, EmptyString => false
  end.

(** [includes s w]: [w] occurs in [s] at some position, tried from 0 up. *)
Fixpoint includes (s w : string) : bool :=
  startsWith s w ||
  match s with
  | EmptyString => false
  | String _ s' => includes s' w
  end.

(** ** [encodeURIComponent] *)

(** The characters left as they are: ALPHA, DIGIT and [-_.!~*'()]. *)
Definition is_unreserved (c : ascii) : bool :=
  let n := nat_of_ascii c in
  ((48 <=? n) && (n <=? 57)) || ((65 <=? n) && (n <=? 90))
  || ((97 <=? n) && (n <=? 122))
  || existsb (Nat.eqb n) [45; 95; 46; 33; 126; 42; 39; 40; 41].

(** An upper-case hexadecimal digit, for [d] in 0..15. *)
Definition hex_digit (d : Z) : ascii :=
  ascii_of_nat (Z.to_nat (if (d <? 10)%Z then 48 + d else 55 + d)%Z).

(** ["%XY"] for the byte [b]. *)
Definition percent (b : Z) : string :=
  String "%" (String (hex_digit (Z.shiftr b 4)) (String (hex_digit (Z.land b 15)) "")).

(** The UTF-8 encoding of a code point below U+0800. *)
Definition utf8_bytes (n : Z) : list Z :=
  if (n <? 128)%Z then [n]
  else [Z.lor 192 (Z.shiftr n 6); Z.lor 128 (Z.land n 63)].

Fixpoint concat_str (l : list string) : string :=
  match l with
  | [] => EmptyString
  | s :: l' => s +:+ concat_str l'
  end.

Definition encode_char (c : ascii) : string :=
  if is_unreserved c then String c EmptyString
  else concat_str (map percent (utf8_bytes (Z.of_nat (nat_of_ascii c)))).

Fixpoint encodeURIComponent (s : string) : string :=
  match s with
  | EmptyString => EmptyString
  | String c s' => encode_char c +:+ encodeURIComponent s'
  end.

(** ** [decodeURIComponent], the reference inverse *)

Definition hex_val (c : ascii) : option Z :=
  let n := Z.of_nat (nat_of_ascii c) in
  if ((48 <=? n) && (n <=? 57))%Z then Some (n - 48)%Z
  else if ((65 <=? n) && (n <=? 70))%Z then Some (n - 55)%Z
  else if ((97 <=? n) && (n <=? 102))%Z then Some (n - 87)%Z
  else None.

Definition hex_byte (h l : ascii) : option Z :=
  match hex_val h, hex_val l with
  | Some a, Some b => Some (a * 16 + b)%Z
  | _, _ => None
  end.

Definition of_code (n : Z) : ascii := ascii_of_nat (Z.to_nat n).

(** Escapes decode to one byte below 128 or to a two-byte sequence whose
    lead byte is 0xC2 or 0xC3 (code points U+0080..U+00FF); anything else
    is the [URIError] of the specification, here [None]. *)
Fixpoint decodeURIComponent (s : string) : option string :=
  match s with
  | EmptyString => Some EmptyString
  | String c s' =>
      if Ascii.eqb c "%" then
        match s' with
        | String h (String l rest) =>
            match hex_byte h l with
            | None => None
            | Some b =>
                if (b <? 128)%Z then String (of_code b) <$> decodeURIComponent rest
                else if ((194 <=? b) && (b <=? 195))%Z then
                  match rest with
                  | String p (String h2 (String l2 rest')) =>
                      if Ascii.eqb p "%" then
                        match hex_byte h2 l2 with
                        | Some b2 =>
                            if ((128 <=? b2) && (b2 <=? 191))%Z then
                              String (of_code (Z.lor (Z.shiftl (Z.land b 31) 6) (Z.land b2 63)))
                                <$> decodeURIComponent rest'
                            else None
                        | None => None
                        end
                      else None
                  | _ => None
                  end
                else None
            end
        | _ => None
        end
      else String c <$> decodeURIComponent s'
  end.

(** ** [String(x)] of an optional field: [undefined] prints as ["undefined"]. *)

Definition js_str (o : option string) : string :=
  match o with
  | Some s => s
  | None => "undefined"
  end.

(** ** Predicates the specifications use *)

Fixpoint last_char (s : string) : option ascii :=
  match s with
  | EmptyString => None
  | String c EmptyString => Some c
  | String _ s' => last_char s'
  end.

Definition all_ws (s : string) : bool := forallb is_ws (chars s).

(** The characters [encodeURIComponent] may emit. *)
Definition url_char (c : ascii) : bool := is_unreserved c || Ascii.eqb c "%".

(** The shape of the UTF-8 escapes, as a boolean check per code point. *)
Definition utf8_shape (n : Z) : bool :=
  match utf8_bytes n with
  | [b] => (0 <=? b)%Z && (b <? 128)%Z
  | [b1; b2] => (194 <=? b1)%Z && (b1 <=? 195)%Z && (128 <=? b2)%Z && (b2 <=? 191)%Z
  | _ => false
  end.

Example toLowerCase_ex : toLowerCase "Tell me the Weather, MAX" = "tell me the weather, max".
Proof. reflexivity. Qed.

Example trim_ex : trim "  hey Max  " = "hey Max".
Proof. reflexivity. Qed.

Example includes_ex : includes "tell me the weather, max" "max" = true.
Proof. reflexivity. Qed.

Example encode_ex : encodeURIComponent "a b&c" = "a%20b%26c".
Proof. reflexivity. Qed.

Example encode_latin1_ex : encodeURIComponent (String (ascii_of_nat 233) "") = "%C3%A9".
Proof. reflexivity. Qed.

(** ** Helper lemmas *)

Lemma lower_char_idem (c : ascii) : lower_char (lower_char c) = lower_char c.
Proof.
  apply Ascii.eqb_eq. revert c.
  apply (ascii_forall (fun c => Ascii.eqb (lower_char (lower_char c)) (lower_char c))).
  vm_compute. reflexivity.
Qed.

Lemma startsWith_spec (s w : string) :
  startsWith s w = true <-> exists q, s = w +:+ q.
Proof.
  revert s. induction w as [|c w IH]; intros [|d s]; simpl.
  - split; [intros _; by exists ""|done].
  - split; [intros _; by exists (String d s)|done].
  - split; [done|]. intros [q Hq]. discriminate.
  - rewrite andb_true_iff, IH. split.
    + intros [Hc [q ->]]. apply Ascii.eqb_eq in Hc as ->. by exists q.
    + intros [q Hq]. injection Hq as -> ->. split; [apply Ascii.eqb_refl|by exists q].
Qed.

Lemma all_ws_cons (c : ascii) (s : string) :
  all_ws (String c s) = is_ws c && all_ws s.
Proof. reflexivity. Qed.

Lemma trimStart_spec (s : string) :
  exists p, s = p +:+ trimStart s /\ all_ws p = true /\
    (forall c t, trimStart s = String c t -> is_ws c = false).
Proof.
  induction s as [|c s (p & Hp & Hw & Hh)].
  - exists "". split_and!; done.
  - simpl. destruct (is_ws c) eqn:E.
    + exists (String c p). rewrite str_app_cons, <- Hp, all_ws_cons, E, Hw. done.
    + exists "". split_and!; [done|done|]. intros c' t [= <- _]. exact E.
Qed.

Lemma trimEnd_spec (s : string) :
  exists q, s = trimEnd s +:+ q /\ all_ws q = true /\
    (forall c, last_char (trimEnd s) = Some c -> is_ws c = false).
Proof.
  induction s as [|c s (q & Hq & Hw & Hl)].
  - exists "". split_and!; done.
  - simpl. destruct (is_ws c && (trimEnd s === "")) eqn:E.
    + apply andb_true_iff in E as [Ec Er%str_eqb_true].
      exists (String c s). split_and!; [done| |done].
      rewrite all_ws_cons, Ec, Hq, Er. exact Hw.
    + exists q. rewrite str_app_cons, <- Hq. split_and!; [done|done|].
      destruct (trimEnd s) as [|d r] eqn:Er; [|exact Hl].
      intros c' [= <-]. rewrite String.eqb_refl, andb_true_r in E. exact E.
Qed.

Lemma trimEnd_head (c : ascii) (s : string) :
  is_ws c = false -> trimEnd (String c s) = String c (trimEnd s).
Proof. intros E. simpl. by rewrite E. Qed.

Lemma decode_encode_char (c : ascii) (rest : string) :
  decodeURIComponent (encode_char c +:+ rest) = String c <$> decodeURIComponent rest.
Proof. destruct c as [[] [] [] [] [] [] [] []]; reflexivity. Qed.

Lemma encode_char_url (c : ascii) : forallb url_char (chars (encode_char c)) = true.
Proof.
  revert c. apply (ascii_forall (fun c => forallb url_char (chars (encode_char c)))).
  vm_compute. reflexivity.
Qed.

(** [includes s w] holds exactly when [w] is a substring of [s]. *)
Lemma includes_iff (s w : string) :
  includes s w = true <-> exists p q, s = p +:+ w +:+ q.
Proof.
  induction s as [|d s IH]; cbn [includes]; rewrite orb_true_iff, startsWith_spec.
  - split.
    + intros [[q Hq]|H]; [|discriminate]. exists "", q. exact Hq.
    + intros [[|x p] [q Hq]]; [left; by exists q|discriminate].
  - rewrite IH. split.
    + intros [[q Hq]|[p [q Hpq]]]; [exists "", q; exact Hq|].
      exists (String d p), q. by rewrite Hpq.
    + intros [[|x p] [q Hq]]; [left; by exists q|].
      rewrite str_app_cons in Hq. injection Hq as -> ->. right. by exists p, q.
Qed.

(** [startsWith] is the Standard Library's [prefix], arguments swapped. *)
Lemma startsWith_prefix (s w : string) : startsWith s w = String.prefix w s.
Proof.
  revert s. induction w as [|c w IH]; intros [|d s]; simpl; try done.
  destruct (ascii_dec c d) as [->|Hne].
  - rewrite Ascii.eqb_refl. apply IH.
  - apply Ascii.eqb_neq in Hne. by rewrite Hne.
Qed.

Lemma toLowerCase_idem (s : string) : toLowerCase (toLowerCase s) = toLowerCase s.
Proof. induction s as [|c s IH]; simpl; [done|]. by rewrite lower_char_idem, IH. Qed.

(** ** Theorems *)

(** [trim] removes exactly the JavaScript white space at both ends: the
    input is [p ++ trim s ++ q] with [p] and [q] white space, and the result
    neither starts nor ends with white space. *)
Theorem trim_spec (s : string) :
  exists p q, s = p +:+ trim s +:+ q /\ all_ws p = true /\ all_ws q = true /\
    (forall c t, trim s = String c t -> is_ws c = false) /\
    (forall c, last_char (trim s) = Some c -> is_ws c = false).
Proof.
  destruct (trimStart_spec s) as (p & Hp & Hwp & Hh).
  destruct (trimEnd_spec (trimStart s)) as (q & Hq & Hwq & Hl).
  exists p, q. unfold trim. split_and!; [|done|done| |done].
  - by rewrite <- Hq.
  - intros c t Ht. destruct (trimStart s) as [|d r] eqn:E; [discriminate|].
    specialize (Hh d r eq_refl). rewrite trimEnd_head in Ht by exact Hh.
    injection Ht as <- _. exact Hh.
Qed.

(** [encodeURIComponent] round-trips: decoding the encoded input gives
    it back, for every Latin-1 string. *)
Theorem decode_encode (s : string) :
  decodeURIComponent (encodeURIComponent s) = Some s.
Proof. induction s as [|c s IH]; [done|]. simpl. by rewrite decode_encode_char, IH. Qed.

(** Every character [encodeURIComponent] emits is unreserved or ['%']:
    the encoded user input cannot contain ['&'], ['#'], ['='], ['?'] or a
    space, so it stays one query-string value. *)
Theorem encode_url_safe (s : string) :
  Forall (fun c => url_char c = true) (chars (encodeURIComponent s)).
Proof.
  induction s as [|c s IH]; simpl; [constructor|].
  rewrite chars_app. apply Forall_app. split; [|exact IH].
  apply Forall_forall. intros x Hx. eapply forallb_forall; [apply encode_char_url|exact Hx].
Qed.

(** The escapes of a code point are well-formed UTF-8: one byte below
    128, or a lead byte 0xC2..0xC3 and a continuation byte 0x80..0xBF. *)
Theorem utf8_bytes_shape (c : ascii) : utf8_shape (Z.of_nat (nat_of_ascii c)) = true.
Proof. revert c. apply (ascii_forall (fun c => utf8_shape (Z.of_nat (nat_of_ascii c)))). vm_compute. reflexivity. Qed.

(** The model of [String.prototype.includes], which tries the
    positions from 0 up, agrees with the Standard Library's substring
    search [String.index]: [w] occurs in [s] exactly when [index 0 w s]
    finds a position. *)
Theorem includes_index (s w : string) :
  includes s w = match String.index 0 w s with Some _ => true | None => false end.
Proof.
  induction s as [|d s IH]; cbn [includes].
  - by destruct w.
  - rewrite startsWith_prefix.
    change (String.index 0 w (String d s)) with
      (if String.prefix w (String d s) then Some 0
       else match String.index 0 w s with Some n => Some (S n) | None => None end).
    destruct (String.prefix w (String d s)); [done|].
    rewrite orb_false_l, IH. by destruct (String.index 0 w s).
Qed.
