(* ===== verification/UserContext.v ===== *)
(** * The user-session provider ([src/src/context/UserContext.jsx])

    The provider's state is [userData] (the profile, or [null]) and three
    image slots that other pages set; its operations are the fetch of the
    current user on mount ([handleCurrentUser]) and [getGeminiResponse],
    the request to the assistant service. Home's [handleLogOut] also writes
    [userData], so it is modelled here with the state it changes. HTTP is
    an outcome the environment chooses: [HttpOk data] or [HttpErr]. *)

From S2P Require Import Prelude JsString.

(** The profile returned by [/api/user/current]: the fields the front end
    reads. [history] may be absent ([userData.history?.map]). *)
Record user := mkUser {
  assistantName : string;
  name : string;
  assistantImage : string;
  history : option (list string)
}.

(** The reply of the assistant service ([result.data]): the three fields
    Home reads, each possibly absent. *)
Record gemini_data := mkGemini {
  g_type : option string;
  g_userInput : option string;
  g_response : option string
}.

(** What an [axios] call resolves to, or that it threw. *)
Inductive http_result (A : Type) :=
| HttpOk (data : A)
| HttpErr.
Arguments HttpOk {A} data.
Arguments HttpErr {A}.

(** An HTTP request as the code builds it: method, URL and JSON body. *)
Record request := mkRequest {
  req_method : string;
  req_url : string;
  req_body : list (string * string)
}.

Record ctx := mkCtx {
  userData : option user;
  frontendImage : option string;
  backendImage : option string;
  selectedImage : option string
}.

Definition serverUrl : string := "https://virtual-assistant-backend-sdtd.onrender.com".

Definition init_ctx : ctx := mkCtx None None None None.

Definition setUserData (u : option user) (c : ctx) : ctx :=
  mkCtx u (frontendImage c) (backendImage c) (selectedImage c).

Definition setFrontendImage (i : option string) (c : ctx) : ctx :=
  mkCtx (userData c) i (backendImage c) (selectedImage c).

Definition setBackendImage (i : option string) (c : ctx) : ctx :=
  mkCtx (userData c) (frontendImage c) i (selectedImage c).

Definition setSelectedImage (i : option string) (c : ctx) : ctx :=
  mkCtx (userData c) (frontendImage c) (backendImage c) i.

(** [handleCurrentUser]: GET the current user; store [result.data], or
    [null] when the request throws. *)
Definition current_user_request : request :=
  mkRequest "GET" (serverUrl +:+ "/api/user/current") [].

Definition handleCurrentUser (r : http_result (option user)) (c : ctx) : ctx :=
  match r with
  | HttpOk d => setUserData d c
  | HttpErr => setUserData None c
  end.

(** [getGeminiResponse(command)]: POST [{command}] and return [result.data],
    or [null] when the request throws. The function has one parameter:
    the further arguments Home passes are dropped. *)
Definition gemini_request (command : string) : request :=
  mkRequest "POST" (serverUrl +:+ "/api/user/asktoassistant") [("command", command)].

Definition getGeminiResponse (r : http_result (option gemini_data)) : option gemini_data :=
  match r with
  | HttpOk d => d
  | HttpErr => None
  end.

(** Home's call site passes three arguments; JavaScript binds the first. *)
Definition home_gemini_call (transcript assistant_name user_name : string) : request :=
  gemini_request transcript.

(** [handleLogOut] (Home): GET logout; on success clear [userData] and go to
    ["/signin"]; on failure clear [userData] and stay. The second component
    is the route navigated to. *)
Definition logout_request : request :=
  mkRequest "GET" (serverUrl +:+ "/api/auth/logout") [].

Definition handleLogOut (r : http_result unit) (c : ctx) : ctx * option string :=
  match r with
  | HttpOk _ => (setUserData None c, Some "/signin")
  | HttpErr => (setUserData None c, None)
  end.

(** Home's render reads [userData.history], [userData?.assistantImage] and
    [userData?.assistantName]; the first has no optional chaining on
    [userData], so a render with [null] throws a [TypeError]. [Some h] is
    the history list rendered. *)
Definition render_history (u : option user) : option (list string) :=
  match u with
  | Some p => Some (default [] (history p))
  | None => None
  end.

(** Logging out always clears the profile, whatever the server says,
    and navigates to ["/signin"] only when the request succeeded; after a
    failed logout the page that stays mounted renders with no profile,
    which throws. *)
Theorem handleLogOut_spec (r : http_result unit) (c : ctx) :
  userData (fst (handleLogOut r c)) = None /\
  (snd (handleLogOut r c) = Some "/signin" <-> exists v, r = HttpOk v) /\
  render_history (userData (fst (handleLogOut r c))) = None.
Proof.
  destruct r as [v|]; simpl; split_and!; try done.
  - split; [by exists v|done].
  - split; [done|intros [? ?]; discriminate].
Qed.
