(* ===== verification/Dispatch.v ===== *)
(** * The intent dispatcher of [handleCommand] ([Home.jsx] lines 66-78)

    [handleCommand] computes a URL from the reply's [type] and [userInput]
    by a sequence of independent [if] assignments (not an [else if] chain)
    and, when the URL is not empty, opens a new window and sets its
    location, or warns when the popup is blocked. [command_url] and
    [open_window] model those lines; [intent_target] is the table of the
    spec (section 4.4), and [command_url_refines] shows the code
    implements it. *)

From S2P Require Import Prelude JsString.

Definition google_search : string := "https://www.google.com/search?q=".
Definition youtube_search : string := "https://www.youtube.com/results?search_query=".

(** Lines 66-72, one assignment per line, in the code's order. *)
Definition command_url (type : string) (userInput : option string) : string :=
  let url := "" in
  let url := if type === "google-search"
             then google_search +:+ encodeURIComponent (js_str userInput) else url in
  let url := if (type === "youtube-search") || (type === "youtube-play")
             then youtube_search +:+ encodeURIComponent (js_str userInput) else url in
  let url := if type === "calculator-open" then google_search +:+ "calculator" else url in
  let url := if type === "instagram-open" then "https://www.instagram.com/" else url in
  let url := if type === "facebook-open" then "https://www.facebook.com/" else url in
  let url := if type === "weather-show" then google_search +:+ "weather" else url in
  url.

(** What lines 74-78 do with the URL. *)
Inductive nav_effect :=
| NavNone                    (** the URL is empty: nothing is opened *)
| NavOpened (url : string)   (** [window.open] gave a window; its location is set *)
| NavBlocked.                (** [window.open] returned [null]: a warning *)

Definition open_window (popup_ok : bool) (url : string) : nav_effect :=
  if truthy url then (if popup_ok then NavOpened url else NavBlocked) else NavNone.

(** ** The spec's intent table *)

Inductive intent :=
| GoogleSearch | YoutubeSearch | YoutubePlay | CalculatorOpen
| InstagramOpen | FacebookOpen | WeatherShow | UnknownIntent.

Definition intent_of_type (t : string) : intent :=
  if t === "google-search" then GoogleSearch
  else if t === "youtube-search" then YoutubeSearch
  else if t === "youtube-play" then YoutubePlay
  else if t === "calculator-open" then CalculatorOpen
  else if t === "instagram-open" then InstagramOpen
  else if t === "facebook-open" then FacebookOpen
  else if t === "weather-show" then WeatherShow
  else UnknownIntent.

(** Section 4.4: zero or one navigation target per intent. *)
Definition intent_target (i : intent) (input : string) : option string :=
  match i with
  | GoogleSearch => Some (google_search +:+ encodeURIComponent input)
  | YoutubeSearch | YoutubePlay => Some (youtube_search +:+ encodeURIComponent input)
  | CalculatorOpen => Some (google_search +:+ "calculator")
  | InstagramOpen => Some "https://www.instagram.com/"
  | FacebookOpen => Some "https://www.facebook.com/"
  | WeatherShow => Some (google_search +:+ "weather")
  | UnknownIntent => None
  end.

(** The URLs the dispatcher can ever open. *)
Definition dispatch_url (url : string) : Prop :=
  (exists q, url = google_search +:+ q) \/ (exists q, url = youtube_search +:+ q) \/
  url = "https://www.instagram.com/" \/ url = "https://www.facebook.com/".

(** ** Lemmas *)

(** A URL that starts with a character is truthy. *)
Lemma open_window_app (p : bool) (c : ascii) (a b : string) :
  open_window p (String c a +:+ b) = if p then NavOpened (String c a +:+ b) else NavBlocked.
Proof. reflexivity. Qed.

(** The table, case by case. *)
Lemma command_url_cases (t : string) (u : option string) :
  command_url t u = default "" (intent_target (intent_of_type t) (js_str u)).
Proof.
  unfold command_url, intent_of_type.
  repeat (split_str_eq t; [reflexivity|]). reflexivity.
Qed.

(** Every window the dispatcher opens is at one of the table's sites. *)
Lemma open_window_dispatch_url (p : bool) (t : string) (u : option string) (url : string) :
  open_window p (command_url t u) = NavOpened url -> dispatch_url url.
Proof.
  rewrite command_url_cases. unfold dispatch_url.
  destruct (intent_of_type t), p; simpl; unfold google_search, youtube_search;
    rewrite ?open_window_app; intros; try done; simplify_eq; eauto 6.
  all: vm_compute in H; injection H as <-; eauto 6.
Qed.

(** ** Theorems *)

(** C8: the sequence of [if] assignments of [handleCommand] implements the
    spec's intent table: for every [type] and [userInput], the URL is the
    table's target for the intent the type names (the empty string, so no
    navigation, for every other type); [userInput] absent is encoded as
    ["undefined"]. *)
Theorem command_url_refines (t : string) (u : option string) :
  command_url t u = default "" (intent_target (intent_of_type t) (js_str u)).
Proof. apply command_url_cases. Qed.

(** C16: the search URLs [handleCommand] builds (lines 67-68) carry the
    user's input as one query value: for the three search types the URL is
    the engine's prefix followed by unreserved characters and ['%'] escapes
    only (no ['&'], ['#'], ['='] or space of the input reaches the URL), and
    that value decodes back to the input, so distinct inputs give distinct
    URLs. *)
Theorem search_query_roundtrip (t u : string) :
  t = "google-search" \/ t = "youtube-search" \/ t = "youtube-play" ->
  exists base q, command_url t (Some u) = base +:+ q /\
    (base = google_search \/ base = youtube_search) /\
    Forall (fun c => url_char c = true) (chars q) /\ decodeURIComponent q = Some u.
Proof.
  intros Ht. rewrite command_url_cases.
  exists (if bool_decide (t = "google-search") then google_search else youtube_search),
         (encodeURIComponent u).
  split_and!; [| |apply encode_url_safe|apply decode_encode];
    destruct Ht as [-> | [-> | ->]]; [reflexivity..|left|right|right]; reflexivity.
Qed.

(** The dispatcher opens a window exactly for the seven known types,
    only at a search-engine, video-search, Instagram or Facebook URL, and
    reports a blocked popup instead of opening when [window.open] fails. *)
Theorem open_window_command (popup_ok : bool) (t : string) (u : option string) :
  (open_window popup_ok (command_url t u) = NavNone <-> intent_of_type t = UnknownIntent) /\
  (forall url, open_window popup_ok (command_url t u) = NavOpened url -> dispatch_url url) /\
  (popup_ok = false -> open_window popup_ok (command_url t u) <> NavOpened (command_url t u)).
Proof.
  split_and!; [|apply open_window_dispatch_url|].
  - rewrite command_url_cases. destruct (intent_of_type t), popup_ok; simpl;
      unfold google_search, youtube_search; rewrite ?open_window_app; done.
  - intros ->. rewrite command_url_cases.
    destruct (intent_of_type t); simpl; unfold google_search, youtube_search;
      rewrite ?open_window_app; done.
Qed.
