(* ===== verification/Speech.v ===== *)
(** * Speech synthesis ([window.speechSynthesis]) and the utterances Home builds

    The engine is the browser's; its contract is the spec's (section 4.3):
    [speak] appends to a queue, [cancel] interrupts everything queued, and
    every utterance, interrupted or not, later fires its end event once.
    The queue holds each utterance with a flag saying it was cancelled; an
    utterance that was not cancelled ends only when all before it have
    gone, a cancelled one may end at any time. What Home builds is code:
    the utterance of [speak] (lines 44-48, locale ["hi-IN"] and the first
    voice of that locale) and the greeting of the mount effect (lines
    135-137, which has no [onend]). *)

From S2P Require Import Prelude JsString UserContext.

Record voice := mkVoice {
  voice_name : string;
  voice_lang : string
}.

(** The [onend] handler an utterance carries. *)
Inductive end_handler :=
| NoHandler      (** the greeting: nothing runs when it ends *)
| SpeakOnEnd.    (** [speak]'s closure of lines 51-55 *)

Record utterance := mkUtterance {
  u_text : string;
  u_lang : string;
  u_voice : option voice;
  u_onend : end_handler
}.

Record synth := mkSynth {
  queue : list (utterance * bool);   (** the flag: cancelled *)
  voices : list voice                (** what [getVoices()] returns *)
}.

Definition init_synth (vs : list voice) : synth := mkSynth [] vs.

(** [synth.cancel()]: every queued utterance is interrupted. *)
Definition synth_cancel (sy : synth) : synth :=
  mkSynth (map (fun p => (fst p, true)) (queue sy)) (voices sy).

(** [synth.speak(u)]: [u] joins the end of the queue. *)
Definition synth_speak (u : utterance) (sy : synth) : synth :=
  mkSynth (queue sy ++ [(u, false)]) (voices sy).

(** The [i]-th queued utterance may fire its end event: it was cancelled,
    or every utterance before it was. *)
Definition synth_can_end (i : nat) (sy : synth) : bool :=
  match queue sy !! i with
  | Some (_, true) => true
  | Some (_, false) => forallb snd (take i (queue sy))
  | None => false
  end.

(** The end event of the [i]-th utterance: it leaves the queue. *)
Definition synth_end (i : nat) (sy : synth) : option (utterance * synth) :=
  match queue sy !! i with
  | Some (u, _) =>
      if synth_can_end i sy then Some (u, mkSynth (delete i (queue sy)) (voices sy))
      else None
  | None => None
  end.

(** Audio is playing or about to: some queued utterance was not cancelled. *)
Definition synth_busy (sy : synth) : bool := existsb (fun p => negb (snd p)) (queue sy).

(** A response of [speak] is queued and not cancelled: the assistant's
    answer is playing or about to. *)
Definition response_playing (sy : synth) : bool :=
  existsb (fun p => negb (snd p) && match u_onend (fst p) with
                                    | SpeakOnEnd => true
                                    | NoHandler => false
                                    end) (queue sy).

(** Lines 46-47: [voices.find(v => v.lang === 'hi-IN')]. *)
Definition find_voice (vs : list voice) : option voice :=
  find (fun v => voice_lang v === "hi-IN") vs.

(** Lines 44-48 and 51: the utterance [speak(text)] builds. *)
Definition make_utterance (text : string) (vs : list voice) : utterance :=
  mkUtterance text "hi-IN" (find_voice vs) SpeakOnEnd.

(** Lines 135-136: the greeting, with the default voice and no handler. *)
Definition greeting (u : user) : utterance :=
  mkUtterance ("Hello " +:+ name u +:+ ", what can I help you with?") "hi-IN" None NoHandler.

(** Lines 57-58: cancel, then speak. *)
Definition cancel_and_speak (u : utterance) (sy : synth) : synth :=
  synth_speak u (synth_cancel sy).

(** ** Lemmas *)

Lemma synth_busy_cancel (sy : synth) : synth_busy (synth_cancel sy) = false.
Proof.
  unfold synth_busy, synth_cancel. simpl.
  induction (queue sy) as [|p q IH]; simpl; [done|exact IH].
Qed.

Lemma synth_busy_speak (u : utterance) (sy : synth) : synth_busy (synth_speak u sy) = true.
Proof. unfold synth_busy, synth_speak. simpl. rewrite existsb_app. simpl. apply orb_true_r. Qed.

(** After [cancel] and [speak], the new utterance is the only live one. *)
Lemma cancel_and_speak_live (u : utterance) (sy : synth) :
  List.filter (fun p => negb (snd p)) (queue (cancel_and_speak u sy)) = [(u, false)].
Proof.
  unfold cancel_and_speak, synth_speak, synth_cancel. simpl.
  rewrite filter_app. induction (queue sy) as [|p q IH]; simpl; [done|exact IH].
Qed.

(** ** Theorems *)

(** C17: [speak] interrupts instead of queueing: after [cancel] and [speak],
    the new utterance is the only one not cancelled, it is last in the
    queue, and it may end at once, since all before it were cancelled. *)
Theorem cancel_and_speak_interrupts (u : utterance) (sy : synth) :
  List.filter (fun p => negb (snd p)) (queue (cancel_and_speak u sy)) = [(u, false)] /\
  synth_can_end (length (queue sy)) (cancel_and_speak u sy) = true.
Proof.
  split; [apply cancel_and_speak_live|].
  unfold cancel_and_speak, synth_speak, synth_cancel, synth_can_end. simpl.
  rewrite lookup_app_r, length_map, Nat.sub_diag by (rewrite length_map; lia). simpl.
  rewrite take_app_length' by (rewrite length_map; done).
  apply forallb_forall. intros x Hx. apply in_map_iff in Hx as (p & <- & _). done.
Qed.

(** [find_voice] returns the first voice whose locale is ["hi-IN"], and
    [None] when the browser has none. *)
Theorem find_voice_spec (vs : list voice) :
  match find_voice vs with
  | Some v => exists pre post, vs = pre ++ v :: post /\ voice_lang v = "hi-IN" /\
                Forall (fun w => voice_lang w <> "hi-IN") pre
  | None => Forall (fun w => voice_lang w <> "hi-IN") vs
  end.
Proof.
  unfold find_voice. induction vs as [|w vs IH]; simpl; [constructor|].
  destruct (String.eqb_spec (voice_lang w) "hi-IN") as [Hw|Hw].
  - exists [], vs. split_and!; [done|exact Hw|constructor].
  - destruct (find _ vs) as [v|].
    + destruct IH as (pre & post & -> & Hv & Hpre).
      exists (w :: pre), post. split_and!; [done|exact Hv|constructor; done].
    + constructor; done.
Qed.
