(* ===== verification/Recognition.v ===== *)
(** * The speech-recognition engine and its contract

    Home drives a browser object ([new SpeechRecognition()], continuous,
    final results only, locale ["en-US"], lines 82-89): it calls [start()]
    and [stop()], and the engine fires [start], [result], [error] and [end]
    events. The class [Capture] states what Home relies on (the contract of
    spec section 4.2, as laws on a state type); Home's definitions and
    theorems are stated against it. [rec_status] with its instance is the
    life cycle of the Web Speech API: [start()] throws [InvalidStateError]
    unless the engine is idle; after [error] the [end] event follows; a
    requested [stop()] ends with [end]. *)

From S2P Require Import Prelude.

Class Capture (S : Type) := {
  cap_init : S;                    (** a new recogniser *)
  cap_start : S -> option S;       (** [start()]; [None]: it throws [InvalidStateError] *)
  cap_stop : S -> S;               (** [stop()] *)
  cap_ev_start : S -> option S;    (** the [start] event, when it can fire *)
  cap_ev_result : S -> bool;       (** a [result] event can fire *)
  cap_ev_error : S -> option S;    (** an [error] event, when it can fire *)
  cap_ev_end : S -> option S;      (** the [end] event, when it can fire *)
  cap_live : S -> bool;            (** a session exists: [start()] accepted, [end] not yet fired *)
  cap_started : S -> bool;         (** [start] fired and neither [error] nor [end] since *)
  cap_capturing : S -> bool;       (** the microphone is captured *)

  cap_init_idle : cap_live cap_init = false;
  cap_start_throws s : cap_start s = None <-> cap_live s = true;
  cap_start_fresh s s' : cap_start s = Some s' -> cap_live s' = true /\ cap_started s' = false;
  cap_started_live s : cap_started s = true -> cap_live s = true;
  cap_capturing_live s : cap_capturing s = true -> cap_live s = true;
  cap_stop_started s : cap_started s = true -> cap_started (cap_stop s) = true;
  cap_stop_live s : cap_live (cap_stop s) = cap_live s;
  cap_stop_quiet s : cap_capturing (cap_stop s) = false;
  cap_ev_start_started s s' : cap_ev_start s = Some s' -> cap_started s' = true;
  cap_ev_error_stopped s s' : cap_ev_error s = Some s' ->
    cap_started s' = false /\ cap_live s' = true /\ cap_capturing s' = false;
  cap_ev_end_idle s s' : cap_ev_end s = Some s' -> cap_live s' = false;
  cap_ev_start_live s s' : cap_ev_start s = Some s' -> cap_live s = true;
  cap_ev_result_started s : cap_ev_result s = true -> cap_started s = true;
  cap_ev_error_live s s' : cap_ev_error s = Some s' -> cap_live s = true;
  cap_ev_end_live s s' : cap_ev_end s = Some s' -> cap_live s = true
}.

(** ** The Web Speech API life cycle *)

Inductive rec_status :=
| RIdle        (** no session: [start()] is accepted *)
| RStarting    (** [start()] accepted, the [start] event not yet fired *)
| RRunning     (** capturing and delivering results *)
| RStopping    (** [stop()] requested: pending results, then [end] *)
| RErrored.    (** an [error] fired: [end] follows *)

#[export] Instance rec_status_eq_dec : EqDecision rec_status.
Proof. solve_decision. Defined.

Definition ws_start (s : rec_status) : option rec_status :=
  match s with RIdle => Some RStarting | _ => None end.

Definition ws_stop (s : rec_status) : rec_status :=
  match s with RStarting | RRunning => RStopping | _ => s end.

Definition ws_ev_start (s : rec_status) : option rec_status :=
  match s with RStarting => Some RRunning | _ => None end.

Definition ws_ev_result (s : rec_status) : bool :=
  match s with RRunning | RStopping => true | _ => false end.

Definition ws_ev_error (s : rec_status) : option rec_status :=
  match s with RStarting | RRunning | RStopping => Some RErrored | _ => None end.

Definition ws_ev_end (s : rec_status) : option rec_status :=
  match s with RRunning | RStopping | RErrored => Some RIdle | _ => None end.

Definition ws_live (s : rec_status) : bool :=
  match s with RIdle => false | _ => true end.

Definition ws_started (s : rec_status) : bool :=
  match s with RRunning | RStopping => true | _ => false end.

Definition ws_capturing (s : rec_status) : bool :=
  match s with RStarting | RRunning => true | _ => false end.

(** ** The laws of the contract, for the Web Speech life cycle *)

Ltac ws_cases s := destruct s; simpl; intros; simplify_eq; naive_solver.

Lemma ws_start_throws s : ws_start s = None <-> ws_live s = true.
Proof. destruct s; simpl; naive_solver. Qed.

Lemma ws_start_fresh s s' : ws_start s = Some s' -> ws_live s' = true /\ ws_started s' = false.
Proof. ws_cases s. Qed.

Lemma ws_started_live s : ws_started s = true -> ws_live s = true.
Proof. ws_cases s. Qed.

Lemma ws_capturing_live s : ws_capturing s = true -> ws_live s = true.
Proof. ws_cases s. Qed.

Lemma ws_stop_started s : ws_started s = true -> ws_started (ws_stop s) = true.
Proof. ws_cases s. Qed.

Lemma ws_stop_live s : ws_live (ws_stop s) = ws_live s.
Proof. by destruct s. Qed.

Lemma ws_stop_quiet s : ws_capturing (ws_stop s) = false.
Proof. by destruct s. Qed.

Lemma ws_ev_start_started s s' : ws_ev_start s = Some s' -> ws_started s' = true.
Proof. ws_cases s. Qed.

Lemma ws_ev_error_stopped s s' : ws_ev_error s = Some s' ->
  ws_started s' = false /\ ws_live s' = true /\ ws_capturing s' = false.
Proof. ws_cases s. Qed.

Lemma ws_ev_end_idle s s' : ws_ev_end s = Some s' -> ws_live s' = false.
Proof. ws_cases s. Qed.

Lemma ws_ev_start_live s s' : ws_ev_start s = Some s' -> ws_live s = true.
Proof. ws_cases s. Qed.

Lemma ws_ev_result_started s : ws_ev_result s = true -> ws_started s = true.
Proof. ws_cases s. Qed.

Lemma ws_ev_error_live s s' : ws_ev_error s = Some s' -> ws_live s = true.
Proof. ws_cases s. Qed.

Lemma ws_ev_end_live s s' : ws_ev_end s = Some s' -> ws_live s = true.
Proof. ws_cases s. Qed.

#[export] Instance web_speech : Capture rec_status := {|
  cap_init := RIdle;
  cap_start := ws_start;
  cap_stop := ws_stop;
  cap_ev_start := ws_ev_start;
  cap_ev_result := ws_ev_result;
  cap_ev_error := ws_ev_error;
  cap_ev_end := ws_ev_end;
  cap_live := ws_live;
  cap_started := ws_started;
  cap_capturing := ws_capturing;
  cap_init_idle := eq_refl;
  cap_start_throws := ws_start_throws;
  cap_start_fresh := ws_start_fresh;
  cap_started_live := ws_started_live;
  cap_capturing_live := ws_capturing_live;
  cap_stop_started := ws_stop_started;
  cap_stop_live := ws_stop_live;
  cap_stop_quiet := ws_stop_quiet;
  cap_ev_start_started := ws_ev_start_started;
  cap_ev_error_stopped := ws_ev_error_stopped;
  cap_ev_end_idle := ws_ev_end_idle;
  cap_ev_start_live := ws_ev_start_live;
  cap_ev_result_started := ws_ev_result_started;
  cap_ev_error_live := ws_ev_error_live;
  cap_ev_end_live := ws_ev_end_live
|}.
