(* ===== verification/Home.v ===== *)
(** * The voice-interaction coordinator ([src/src/pages/Home.jsx])

    The component's mutable state, flattened into one record [home]: the
    two refs, the recogniser ref, the effect's [isMounted] variable, the
    React state, and what the handlers touch outside the component (the
    recogniser, the synthesis engine, the timers, the outstanding requests
    and the logs of requests, opened windows, warnings and uncaught
    exceptions). One definition per handler, in the code's order of
    statements. Everything is stated against the [Capture] class of
    [Recognition], so the theorems hold for any engine with its contract.

    Each handler is total: what the code does when it throws (a [TypeError]
    on a missing transcript or a [null] profile) is recorded in [faults]
    and leaves the rest of the state as it was at the throw. *)

From S2P Require Import Prelude JsString UserContext Dispatch Speech Recognition.

Section Home.
Context {S : Type} `{!Capture S}.

Record home := mkHome {
  h_user : option user;  (** the profile the mount effect's closure captured ([userData] at first render) *)
  listening : bool;  (** React state [listening] *)
  userText : string;  (** React state [userText] *)
  aiText : string;  (** React state [aiText] ([undefined] is kept as the empty string: both are falsy and render alike) *)
  ham : bool;  (** React state [ham] (the mobile menu) *)
  isSpeaking : bool;  (** [isSpeakingRef.current] *)
  isRecognizing : bool;  (** [isRecognizingRef.current] *)
  recRef : bool;  (** [recognitionRef.current] is set (not [null]) *)
  isMounted : bool;  (** the effect's closure variable [isMounted] *)
  rec : S;  (** the recogniser's state *)
  h_synth : synth;  (** the synthesis engine *)
  now : nat;  (** the clock, in milliseconds *)
  timers : list nat;  (** deadlines of pending [setTimeout(() => startRecognition(), d)] *)
  pending : list string;  (** transcripts whose [getGeminiResponse] has not resolved *)
  requests : list request;  (** every request sent to the assistant, in order *)
  opened : list string;  (** URLs assigned to the windows opened *)
  warnings : list string;  (** [console.warn] and [console.error] messages *)
  faults : list string  (** exceptions thrown out of a handler (uncaught) *)
}.

(** A React state setter or a ref assignment: one field replaced. *)
Definition set_h_user (v : option user) (h : home) : home :=
  mkHome v (listening h) (userText h) (aiText h) (ham h) (isSpeaking h)
    (isRecognizing h) (recRef h) (isMounted h) (rec h) (h_synth h) (now h)
    (timers h) (pending h) (requests h) (opened h) (warnings h) (faults h).

Definition set_listening (v : bool) (h : home) : home :=
  mkHome (h_user h) v (userText h) (aiText h) (ham h) (isSpeaking h)
    (isRecognizing h) (recRef h) (isMounted h) (rec h) (h_synth h) (now h)
    (timers h) (pending h) (requests h) (opened h) (warnings h) (faults h).

Definition set_userText (v : string) (h : home) : home :=
  mkHome (h_user h) (listening h) v (aiText h) (ham h) (isSpeaking h)
    (isRecognizing h) (recRef h) (isMounted h) (rec h) (h_synth h) (now h)
    (timers h) (pending h) (requests h) (opened h) (warnings h) (faults h).

Definition set_aiText (v : string) (h : home) : home :=
  mkHome (h_user h) (listening h) (userText h) v (ham h) (isSpeaking h)
    (isRecognizing h) (recRef h) (isMounted h) (rec h) (h_synth h) (now h)
    (timers h) (pending h) (requests h) (opened h) (warnings h) (faults h).

Definition set_ham (v : bool) (h : home) : home :=
  mkHome (h_user h) (listening h) (userText h) (aiText h) v (isSpeaking h)
    (isRecognizing h) (recRef h) (isMounted h) (rec h) (h_synth h) (now h)
    (timers h) (pending h) (requests h) (opened h) (warnings h) (faults h).

Definition set_isSpeaking (v : bool) (h : home) : home :=
  mkHome (h_user h) (listening h) (userText h) (aiText h) (ham h) v
    (isRecognizing h) (recRef h) (isMounted h) (rec h) (h_synth h) (now h)
    (timers h) (pending h) (requests h) (opened h) (warnings h) (faults h).

Definition set_isRecognizing (v : bool) (h : home) : home :=
  mkHome (h_user h) (listening h) (userText h) (aiText h) (ham h) (isSpeaking h)
    v (recRef h) (isMounted h) (rec h) (h_synth h) (now h)
    (timers h) (pending h) (requests h) (opened h) (warnings h) (faults h).

Definition set_recRef (v : bool) (h : home) : home :=
  mkHome (h_user h) (listening h) (userText h) (aiText h) (ham h) (isSpeaking h)
    (isRecognizing h) v (isMounted h) (rec h) (h_synth h) (now h)
    (timers h) (pending h) (requests h) (opened h) (warnings h) (faults h).

Definition set_isMounted (v : bool) (h : home) : home :=
  mkHome (h_user h) (listening h) (userText h) (aiText h) (ham h) (isSpeaking h)
    (isRecognizing h) (recRef h) v (rec h) (h_synth h) (now h)
    (timers h) (pending h) (requests h) (opened h) (warnings h) (faults h).

Definition set_rec (v : S) (h : home) : home :=
  mkHome (h_user h) (listening h) (userText h) (aiText h) (ham h) (isSpeaking h)
    (isRecognizing h) (recRef h) (isMounted h) v (h_synth h) (now h)
    (timers h) (pending h) (requests h) (opened h) (warnings h) (faults h).

Definition set_h_synth (v : synth) (h : home) : home :=
  mkHome (h_user h) (listening h) (userText h) (aiText h) (ham h) (isSpeaking h)
    (isRecognizing h) (recRef h) (isMounted h) (rec h) v (now h)
    (timers h) (pending h) (requests h) (opened h) (warnings h) (faults h).

Definition set_now (v : nat) (h : home) : home :=
  mkHome (h_user h) (listening h) (userText h) (aiText h) (ham h) (isSpeaking h)
    (isRecognizing h) (recRef h) (isMounted h) (rec h) (h_synth h) v
    (timers h) (pending h) (requests h) (opened h) (warnings h) (faults h).

Definition set_timers (v : list nat) (h : home) : home :=
  mkHome (h_user h) (listening h) (userText h) (aiText h) (ham h) (isSpeaking h)
    (isRecognizing h) (recRef h) (isMounted h) (rec h) (h_synth h) (now h)
    v (pending h) (requests h) (opened h) (warnings h) (faults h).

Definition set_pending (v : list string) (h : home) : home :=
  mkHome (h_user h) (listening h) (userText h) (aiText h) (ham h) (isSpeaking h)
    (isRecognizing h) (recRef h) (isMounted h) (rec h) (h_synth h) (now h)
    (timers h) v (requests h) (opened h) (warnings h) (faults h).

Definition set_requests (v : list request) (h : home) : home :=
  mkHome (h_user h) (listening h) (userText h) (aiText h) (ham h) (isSpeaking h)
    (isRecognizing h) (recRef h) (isMounted h) (rec h) (h_synth h) (now h)
    (timers h) (pending h) v (opened h) (warnings h) (faults h).

Definition set_opened (v : list string) (h : home) : home :=
  mkHome (h_user h) (listening h) (userText h) (aiText h) (ham h) (isSpeaking h)
    (isRecognizing h) (recRef h) (isMounted h) (rec h) (h_synth h) (now h)
    (timers h) (pending h) (requests h) v (warnings h) (faults h).

Definition set_warnings (v : list string) (h : home) : home :=
  mkHome (h_user h) (listening h) (userText h) (aiText h) (ham h) (isSpeaking h)
    (isRecognizing h) (recRef h) (isMounted h) (rec h) (h_synth h) (now h)
    (timers h) (pending h) (requests h) (opened h) v (faults h).

Definition set_faults (v : list string) (h : home) : home :=
  mkHome (h_user h) (listening h) (userText h) (aiText h) (ham h) (isSpeaking h)
    (isRecognizing h) (recRef h) (isMounted h) (rec h) (h_synth h) (now h)
    (timers h) (pending h) (requests h) (opened h) (warnings h) v.

Definition add_warning (w : string) (h : home) : home := set_warnings (warnings h ++ [w]) h.
Definition add_fault (f : string) (h : home) : home := set_faults (faults h ++ [f]) h.

(** The component before its first render effect: no recogniser yet. *)
Definition init_home (vs : list voice) : home :=
  mkHome None false "" "" false false false false false cap_init (init_synth vs) 0 []
    [] [] [] [] [].

(** ** Handlers *)

(** [setTimeout(() => startRecognition(), d)]. *)
Definition set_timeout (d : nat) (h : home) : home := set_timers (timers h ++ [now h + d]) h.

(** Lines 33-41: start only when neither speaking nor recognising; the
    optional chaining skips a missing recogniser; the [InvalidStateError]
    of [start()] is swallowed silently. *)
Definition startRecognition (h : home) : home :=
  if negb (isSpeaking h) && negb (isRecognizing h) then
    if recRef h then
      match cap_start (rec h) with
      | Some r => set_rec r h
      | None => h
      end
    else h
  else h.

(** Lines 43-59: build the utterance, set the speaking ref, cancel what is
    queued and speak. *)
Definition speak (text : string) (h : home) : home :=
  let u := make_utterance text (voices (h_synth h)) in
  let h := set_isSpeaking true h in
  set_h_synth (cancel_and_speak u (h_synth h)) h.

(** Lines 51-55: the utterance's [onend]. *)
Definition utterance_onend (h : home) : home :=
  set_timeout 800 (set_isSpeaking false (set_aiText "" h)).

(** [!data || !data.type] is false: the reply's type, when there is one. *)
Definition reply_type (data : option gemini_data) : option string :=
  match data with
  | Some d => match g_type d with
              | Some t => if truthy t then Some t else None
              | None => None
              end
  | None => None
  end.

(** The text [speak(response)] utters: the constructor's text argument is
    optional, so [undefined] gives the empty string. *)
Definition response_text (d : gemini_data) : string := default "" (g_response d).

(** Lines 61-79. *)
Definition handleCommand (data : option gemini_data) (popup_ok : bool) (h : home) : home :=
  match data, reply_type data with
  | Some d, Some t =>
      let h := speak (response_text d) h in
      match open_window popup_ok (command_url t (g_userInput d)) with
      | NavNone => h
      | NavOpened url => set_opened (opened h ++ [url]) h
      | NavBlocked => add_warning "Popup blocked! Allow popups for this site." h
      end
  | _, _ => h
  end.

(** Lines 94-97. *)
Definition onstart (h : home) : home := set_listening true (set_isRecognizing true h).

(** Lines 99-103. *)
Definition onend (h : home) : home :=
  let h := set_listening false (set_isRecognizing false h) in
  if isMounted h && negb (isSpeaking h) then set_timeout 1000 h else h.

(** Lines 105-112. *)
Definition onerror (code : string) (h : home) : home :=
  let h := add_warning ("Recognition error: " +:+ code) h in
  let h := set_listening false (set_isRecognizing false h) in
  if negb (code === "aborted") && isMounted h && negb (isSpeaking h)
  then set_timeout 1000 h else h.

(** [e.results[e.results.length - 1][0].transcript]: [None] is the
    [TypeError] of an empty result list or alternative list (for an empty
    list the index is [-1] in JavaScript and [0] here: both miss). *)
Definition last_transcript (results : list (list string)) : option string :=
  match results !! (length results - 1) with
  | Some alts => alts !! 0
  | None => None
  end.

(** Line 116: case-insensitive substring test of the wake word. *)
Definition wake_match (transcript wake : string) : bool :=
  includes (toLowerCase transcript) (toLowerCase wake).

(** Lines 114-121, up to the [await]: on a match, echo the transcript,
    stop the recogniser, clear [listening] and send the request, which
    stays outstanding until its reply. *)
Definition onresult (results : list (list string)) (h : home) : home :=
  match last_transcript results with
  | None => add_fault "TypeError: no transcript" h
  | Some raw =>
      let t := trim raw in
      match h_user h with
      | None => add_fault "TypeError: userData is null" h
      | Some u =>
          if wake_match t (assistantName u) then
            let h := set_userText t h in
            let h := set_rec (cap_stop (rec h)) h in
            let h := set_listening false h in
            let h := set_requests (requests h ++ [home_gemini_call t (assistantName u) (name u)]) h in
            set_pending (pending h ++ [t]) h
          else h
      end
  end.

Definition apology : string := "Sorry, I couldn't understand that.".

(** Lines 123-131: the continuation once [getGeminiResponse] resolves. *)
Definition on_reply (data : option gemini_data) (popup_ok : bool) (h : home) : home :=
  match data, reply_type data with
  | Some d, Some _ =>
      let h := handleCommand data popup_ok h in
      set_userText "" (set_aiText (default "" (g_response d)) h)
  | _, _ => set_aiText apology (add_warning "Invalid Gemini response, skipping command:" h)
  end.

(** Lines 82-92 and 135-137: create and configure the recogniser, set the
    ref, arm the first start after 1000 ms, then greet. The greeting reads
    [userData.name]; with no profile it throws, after the timer is armed. *)
Definition mount (u : option user) (h : home) : home :=
  let h := set_rec cap_init (set_recRef true h) in
  let h := set_isMounted true h in
  let h := set_timeout 1000 h in
  let h := set_h_user u h in
  match u with
  | None => add_fault "TypeError: userData is null" h
  | Some p => set_h_synth (synth_speak (greeting p) (h_synth h)) h
  end.

(** Lines 139-144: the effect's cleanup. Pending timers are not cleared. *)
Definition unmount (h : home) : home :=
  let h := set_isMounted false h in
  let h := set_rec (cap_stop (rec h)) h in
  set_isRecognizing false (set_listening false h).

(** ** Lemmas *)

(** [startRecognition] changes the recogniser and nothing else. *)
Lemma startRecognition_frame (h : home) :
  startRecognition h = set_rec (rec (startRecognition h)) h.
Proof. unfold startRecognition. repeat case_match; destruct h; reflexivity. Qed.

(** Either nothing happens, or [start()] is accepted under the guard. *)
Lemma startRecognition_cases (h : home) :
  startRecognition h = h \/
  exists r, cap_start (rec h) = Some r /\ isSpeaking h = false /\ isRecognizing h = false /\
            recRef h = true /\ startRecognition h = set_rec r h.
Proof.
  unfold startRecognition.
  destruct (isSpeaking h), (isRecognizing h), (recRef h); simpl; auto.
  destruct (cap_start (rec h)) eqn:E; [right; by exists s|auto].
Qed.

(** ** Theorems *)

(** C1: the wake-word test is a case-insensitive substring test: it holds
    exactly when the lower-cased wake word occurs in the lower-cased
    transcript, and lower-casing either argument first changes nothing. *)
Theorem wake_match_spec (t w : string) :
  (wake_match t w = true <-> exists p q, toLowerCase t = p +:+ toLowerCase w +:+ q) /\
  wake_match (toLowerCase t) (toLowerCase w) = wake_match t w.
Proof. unfold wake_match. rewrite !toLowerCase_idem. split; [apply includes_iff|done]. Qed.

(** C2: a final transcript that does not contain the wake word is
    discarded: the handler leaves the whole state as it was, so no request
    is sent and the recogniser keeps running. *)
Theorem onresult_no_match (results : list (list string)) (raw : string) (u : user) (h : home) :
  last_transcript results = Some raw -> h_user h = Some u ->
  wake_match (trim raw) (assistantName u) = false ->
  onresult results h = h.
Proof. intros Hr Hu Hw. unfold onresult. by rewrite Hr, Hu, Hw. Qed.

(** C3: a final transcript that contains the wake word sends exactly one
    request, whose command is the whole trimmed transcript, and stops the
    recogniser in the same handler, before the reply can arrive; it neither
    arms a timer nor speaks. *)
Theorem onresult_match (results : list (list string)) (raw : string) (u : user) (h : home) :
  last_transcript results = Some raw -> h_user h = Some u ->
  wake_match (trim raw) (assistantName u) = true ->
  let h' := onresult results h in
  requests h' = requests h ++ [gemini_request (trim raw)] /\
  pending h' = pending h ++ [trim raw] /\
  rec h' = cap_stop (rec h) /\ cap_capturing (rec h') = false /\
  userText h' = trim raw /\ listening h' = false /\
  timers h' = timers h /\ isSpeaking h' = isSpeaking h /\ h_synth h' = h_synth h.
Proof.
  intros Hr Hu Hw. cbv zeta. unfold onresult. rewrite Hr, Hu, Hw. simpl.
  split_and!; try reflexivity. apply cap_stop_quiet.
Qed.

(** C4: [startRecognition] calls [start()] only when the assistant is not
    speaking, no session is recognising, the recogniser exists and is idle;
    otherwise the recogniser is left as it was (the [InvalidStateError] of
    a busy engine is swallowed). *)
Theorem startRecognition_guard (h : home) :
  rec (startRecognition h) <> rec h ->
  isSpeaking h = false /\ isRecognizing h = false /\ recRef h = true /\
  cap_live (rec h) = false /\ cap_start (rec h) = Some (rec (startRecognition h)).
Proof.
  destruct (startRecognition_cases h) as [->|(r & E & Hs & Hr & Hf & ->)]; [done|].
  intros _. simpl. split_and!; try done.
  apply not_true_is_false. intros Hl. apply cap_start_throws in Hl. congruence.
Qed.

(** C5: a recogniser error arms a restart 1000 ms later exactly when its
    code is not ["aborted"], the component is mounted and the assistant is
    not speaking; it shows no text, and always clears the recognising
    flag. *)
Theorem onerror_restart (code : string) (h : home) :
  (code = "aborted" -> timers (onerror code h) = timers h) /\
  (code <> "aborted" -> timers (onerror code h) =
     timers h ++ (if isMounted h && negb (isSpeaking h) then [now h + 1000] else [])) /\
  isRecognizing (onerror code h) = false /\ listening (onerror code h) = false /\
  rec (onerror code h) = rec h /\ aiText (onerror code h) = aiText h /\
  userText (onerror code h) = userText h.
Proof.
  unfold onerror. cbv zeta. split_and!; [| |case_if; reflexivity..].
  - intros ->. reflexivity.
  - intros Hne. rewrite (proj2 (String.eqb_neq _ _) Hne). simpl.
    destruct (isMounted h), (isSpeaking h); simpl; rewrite ?app_nil_r; reflexivity.
Qed.

(** C6: a reply that is [null] or has no truthy [type] shows the apology,
    speaks nothing, opens nothing, arms no timer and leaves the recogniser
    alone. *)
Theorem on_reply_invalid (data : option gemini_data) (popup_ok : bool) (h : home) :
  reply_type data = None ->
  let h' := on_reply data popup_ok h in
  aiText h' = apology /\ isSpeaking h' = isSpeaking h /\ h_synth h' = h_synth h /\
  timers h' = timers h /\ opened h' = opened h /\ rec h' = rec h /\
  requests h' = requests h.
Proof.
  intros Ht. cbv zeta. unfold on_reply.
  destruct data as [d|]; [rewrite Ht|]; split_and!; done.
Qed.

(** C7: a well-formed reply is spoken and dispatched: the speaking flag is
    set, the response is the only utterance left uncancelled, the window
    the dispatcher's table names is opened (when the popup is allowed), the
    response is shown and the echoed transcript cleared; no timer is armed
    and the recogniser is not touched. *)
Theorem on_reply_valid (d : gemini_data) (t : string) (popup_ok : bool) (h : home) :
  reply_type (Some d) = Some t ->
  let h' := on_reply (Some d) popup_ok h in
  isSpeaking h' = true /\
  List.filter (fun p => negb (snd p)) (queue (h_synth h')) =
    [(make_utterance (response_text d) (voices (h_synth h)), false)] /\
  opened h' = opened h ++ match open_window popup_ok (command_url t (g_userInput d)) with
                         | NavOpened url => [url]
                         | _ => []
                         end /\
  aiText h' = default "" (g_response d) /\ userText h' = "" /\
  timers h' = timers h /\ rec h' = rec h /\ pending h' = pending h.
Proof.
  intros Ht. cbv zeta. unfold on_reply, handleCommand. rewrite Ht.
  destruct (open_window _ _); simpl; rewrite ?app_nil_r;
    split_and!; try done; apply cancel_and_speak_live.
Qed.

End Home.
