(* ===== verification/Render.v ===== *)
(** * What Home renders (lines 147-176 of [src/src/pages/Home.jsx])

    The JSX is a pure function of the provider's current [userData] and of
    three pieces of Home's React state ([ham], [userText], [aiText]); it is
    modelled as [render], whose result is the part of the tree the code
    computes: the class of the mobile menu (line 154), the history rows
    (line 161), the persona image and the title (lines 169 and 172), the
    gif shown (lines 173-174) and the caption (line 175). Styling classes
    that are constant are not modelled, except in the menu class, which
    is built by interpolation. Line 161 reads [userData.history] with no
    optional chaining on [userData], and it is evaluated before lines 169
    and 172: with no profile the render throws, which is [None].

    The click handlers of lines 151, 155, 156 and 157 are [onClick]. *)

From S2P Require Import Prelude JsString UserContext Dispatch Speech Recognition Home.

Inductive gif := UserGif | AiGif.

Record view := mkView {
  menu_class : string;                (** line 154 *)
  history_rows : list (nat * string); (** line 161: [key={idx}] and the text *)
  persona_src : string;               (** line 169 *)
  title : string;                     (** line 172 *)
  gifs : list gif;                    (** lines 173-174, in order *)
  caption : option string             (** line 175; [None] is [null] *)
}.

(** Line 154: the template literal of the menu's [className]. *)
Definition menu_class_of (ham : bool) : string :=
  "absolute lg:hidden top-0 w-full h-full bg-[#00000053] backdrop-blur-lg p-[20px] flex flex-col gap-[20px] items-start " +:+
  (if ham then "translate-x-0" else "translate-x-full") +:+ " transition-transform".

(** Lines 173-174: [{!aiText && <img src={userImg}/>}] then
    [{aiText && <img src={aiImg}/>}]; a falsy operand renders nothing. *)
Definition gifs_of (aiText : string) : list gif :=
  (if negb (truthy aiText) then [UserGif] else []) ++ (if truthy aiText then [AiGif] else []).

(** Line 175: [userText || aiText || null], read from the left. *)
Definition caption_of (userText aiText : string) : option string :=
  let x := if truthy userText then userText else aiText in
  if truthy x then Some x else None.

(** Lines 147-176. [userData.history?.map((his, idx) => ...)] renders the
    rows with their index, nothing when [history] is absent, and throws
    when [userData] is [null]. *)
Definition render (ud : option user) (ham : bool) (userText aiText : string) : option view :=
  match ud with
  | None => None
  | Some p =>
      Some (mkView (menu_class_of ham) (imap pair (default [] (history p)))
              (assistantImage p) ("I'm " +:+ assistantName p)
              (gifs_of aiText) (caption_of userText aiText))
  end.

(** The icons and buttons of the menu and what their [onClick] does. *)
Inductive control := HamburgerIcon | CrossIcon | LogOutButton | CustomizeButton.

Inductive click_action :=
| ActSetHam (b : bool)          (** [setHam(b)] *)
| ActLogOut                     (** [handleLogOut] *)
| ActNavigate (route : string). (** [navigate(route)] *)

(** Lines 151, 155, 156 and 157. *)
Definition onClick (c : control) : click_action :=
  match c with
  | HamburgerIcon => ActSetHam true
  | CrossIcon => ActSetHam false
  | LogOutButton => ActLogOut
  | CustomizeButton => ActNavigate "/customize"
  end.

Section View.
Context {S : Type} `{!Capture S}.

(** Home's render reads the provider's current profile, not the one the
    mount effect captured. *)
Definition view_of (ud : option user) (h : @home S) : option view :=
  render ud (ham h) (userText h) (aiText h).

(** ** Lemmas *)

(** A transcript that contains a non-empty wake word is not empty. *)
Lemma wake_match_nonempty (t w : string) :
  wake_match t w = true -> w <> "" -> t <> "".
Proof.
  intros Hm Hw ->. apply Hw. unfold wake_match in Hm. simpl in Hm.
  destruct w; [done|]. simpl in Hm. discriminate.
Qed.

Lemma caption_first (ut ai : string) : ut <> "" -> caption_of ut ai = Some ut.
Proof.
  intros H. apply String.eqb_neq in H. unfold caption_of. cbv zeta. rewrite H. simpl. by rewrite H.
Qed.

(** ** Theorems *)

(** C20: the view throws exactly when there is no profile; otherwise it
    shows exactly one gif, the assistant's when [aiText] is non-empty and
    the user's otherwise; the caption is [userText] when it is non-empty,
    else [aiText] when that is non-empty, else nothing; and the menu's class
    slides it in exactly when [ham] is set. *)
Theorem render_spec (ud : option user) (hm : bool) (ut ai : string) :
  (render ud hm ut ai = None <-> ud = None) /\
  forall v, render ud hm ut ai = Some v ->
    gifs v = (if truthy ai then [AiGif] else [UserGif]) /\
    caption v = (if truthy ut then Some ut else if truthy ai then Some ai else None) /\
    includes (menu_class v) "translate-x-0" = hm.
Proof.
  split; [destruct ud; split; done|].
  intros v Hv. destruct ud as [p|]; [|done]. injection Hv as <-. cbn [gifs caption menu_class].
  split_and!.
  - unfold gifs_of. by destruct (truthy ai).
  - unfold caption_of. cbv zeta.
    destruct (ut === "") eqn:E1, (ai === "") eqn:E2; simpl; rewrite ?E1, ?E2; reflexivity.
  - destruct hm; vm_compute; reflexivity.
Qed.

(** C21: the apology is never shown: a wake word starts a request and
    echoes the transcript in [userText]; when the reply is malformed, line
    125 sets [aiText] to the apology and returns before line 131 clears
    [userText], so the caption ([userText || aiText]) still shows the
    transcript, and only the assistant's gif changes. *)
Theorem apology_hidden (results : list (list string)) (raw : string) (u : user)
    (h : home) (data : option gemini_data) (p : bool) :
  last_transcript results = Some raw -> h_user h = Some u -> assistantName u <> "" ->
  wake_match (trim raw) (assistantName u) = true -> reply_type data = None ->
  let h' := on_reply data p (onresult results h) in
  aiText h' = apology /\
  exists v, view_of (Some u) h' = Some v /\ caption v = Some (trim raw) /\ gifs v = [AiGif].
Proof.
  intros Hr Hu Hn Hw Ht. cbv zeta.
  assert (userText (onresult results h) = trim raw) as Hut.
  { unfold onresult. by rewrite Hr, Hu, Hw. }
  unfold on_reply. destruct data as [d|]; [rewrite Ht|];
    (split; [reflexivity|]); eexists; (split; [reflexivity|]); simpl; rewrite Hut;
    (split; [apply caption_first, (wake_match_nonempty _ _ Hw Hn)|reflexivity]).
Qed.

End View.
