(* ===== verification/HomeRun.v ===== *)
(** * The event loop around Home

    The browser delivers one event at a time to the coordinator: the mount
    and unmount of the component, the passage of time and the firing of the
    earliest timer, the recogniser's events, the resolution of an
    outstanding assistant request, the end of an utterance, and the menu
    clicks. [step] runs the handler the event triggers, and is [None] when
    the environment cannot produce the event in that state (an engine
    event its life cycle forbids, a tick past a pending deadline, a reply
    to no request). [run] folds [step] over a list of events; [reachable]
    is the inductive closure of [step] from the component before mount. *)

From S2P Require Import Prelude JsString UserContext Dispatch Speech Recognition Home.

Inductive event :=
| EvMount (u : option user)                              (** first render's effect *)
| EvUnmount                                              (** the effect's cleanup *)
| EvTick (d : nat)                                       (** [d] ms pass *)
| EvTimer                                                (** the earliest timer fires *)
| EvRecStart                                             (** recogniser [start] *)
| EvRecResult (results : list (list string))             (** recogniser [result] *)
| EvRecError (code : string)                             (** recogniser [error] *)
| EvRecEnd                                               (** recogniser [end] *)
| EvReply (i : nat) (data : option gemini_data) (popup_ok : bool)
      (** the [i]-th outstanding request resolves; [popup_ok]: [window.open] succeeds *)
| EvSynthEnd (i : nat)                                   (** the [i]-th queued utterance ends *)
| EvMenu (open : bool).                                  (** the menu icons of lines 151 and 155 *)

Fixpoint list_min (l : list nat) : option nat :=
  match l with
  | [] => None
  | x :: l' => match list_min l' with
               | None => Some x
               | Some m => Some (Nat.min x m)
               end
  end.

Fixpoint remove_first (d : nat) (l : list nat) : list nat :=
  match l with
  | [] => []
  | x :: l' => if x =? d then l' else x :: remove_first d l'
  end.

Section Loop.
Context {S : Type} `{!Capture S}.
Local Abbreviation home := (@home S).

Definition step (h : home) (e : event) : option home :=
  match e with
  | EvMount u => if recRef h then None else Some (mount u h)
  | EvUnmount => if isMounted h then Some (unmount h) else None
  | EvTick d =>
      if forallb (fun t => now h + d <=? t) (timers h) then Some (set_now (now h + d) h)
      else None
  | EvTimer =>
      match list_min (timers h) with
      | Some d => Some (startRecognition (set_timers (remove_first d (timers h)) (set_now d h)))
      | None => None
      end
  | EvRecStart =>
      match cap_ev_start (rec h) with
      | Some r => Some (onstart (set_rec r h))
      | None => None
      end
  | EvRecResult res => if cap_ev_result (rec h) then Some (onresult res h) else None
  | EvRecError code =>
      match cap_ev_error (rec h) with
      | Some r => Some (onerror code (set_rec r h))
      | None => None
      end
  | EvRecEnd =>
      match cap_ev_end (rec h) with
      | Some r => Some (onend (set_rec r h))
      | None => None
      end
  | EvReply i data popup_ok =>
      match pending h !! i with
      | Some _ => Some (on_reply data popup_ok (set_pending (delete i (pending h)) h))
      | None => None
      end
  | EvSynthEnd i =>
      match synth_end i (h_synth h) with
      | Some (u, sy) =>
          let h := set_h_synth sy h in
          Some (match u_onend u with
                | SpeakOnEnd => utterance_onend h
                | NoHandler => h
                end)
      | None => None
      end
  | EvMenu b => if isMounted h then Some (set_ham b h) else None
  end.

Fixpoint run (h : home) (es : list event) : option home :=
  match es with
  | [] => Some h
  | e :: es' => match step h e with
                | Some h' => run h' es'
                | None => None
                end
  end.

Inductive reachable (vs : list voice) : home -> Prop :=
| reach_init : reachable vs (init_home vs)
| reach_step h e h' : reachable vs h -> step h e = Some h' -> reachable vs h'.

(** ** Runs and reachability *)

Lemma run_app (h : home) (es1 es2 : list event) :
  run h (es1 ++ es2) = match run h es1 with Some h' => run h' es2 | None => None end.
Proof.
  revert h. induction es1 as [|e es1 IH]; intros h; simpl; [done|].
  destruct (step h e); [apply IH|done].
Qed.

Lemma run_seq (h h1 h2 : home) (es1 es2 : list event) :
  run h es1 = Some h1 -> run h1 es2 = Some h2 -> run h (es1 ++ es2) = Some h2.
Proof. intros H1 H2. by rewrite run_app, H1. Qed.

Lemma list_min_in (l : list nat) (d : nat) : list_min l = Some d -> In d l.
Proof.
  revert d. induction l as [|x l IH]; intros d; simpl; [done|].
  destruct (list_min l) as [m|] eqn:E; intros [= <-]; [|by left].
  destruct (Nat.min_spec x m) as [[_ ->]|[_ ->]]; [by left|right; by apply IH].
Qed.

Lemma list_min_nonempty (l : list nat) : l <> [] -> exists d, list_min l = Some d.
Proof.
  destruct l as [|x l]; [done|]. intros _. simpl.
  destruct (list_min l); eexists; reflexivity.
Qed.

Lemma run_reachable (vs : list voice) (es : list event) (h0 h : home) :
  reachable vs h0 -> run h0 es = Some h -> reachable vs h.
Proof.
  revert h0. induction es as [|e es IH]; intros h0 Hr Hrun; simpl in Hrun.
  - by injection Hrun as <-.
  - destruct (step h0 e) as [h1|] eqn:Hs; [|done]. eapply IH; [|exact Hrun].
    eapply reach_step; eassumption.
Qed.

(** The inductive closure and the executable run agree: a state is
    reachable exactly when some list of events, run from the component
    before mount, ends in it. *)
Theorem reachable_run (vs : list voice) (h : home) :
  reachable vs h <-> exists es, run (init_home vs) es = Some h.
Proof.
  split.
  - induction 1 as [|h e h' _ [es IH] Hs]; [by exists []|].
    exists (es ++ [e]). rewrite run_app, IH. simpl. by rewrite Hs.
  - intros [es Hr]. eapply run_reachable; [constructor|exact Hr].
Qed.

End Loop.

(** Unfold one step and split its guards, naming each one. *)
Ltac step_destruct Hs := cbn [step] in Hs; repeat (case_match; simplify_eq).
