(* ===== verification/HomeInv.v ===== *)
(** * Invariants of the reachable states of Home

    The invariant [inv] is proved for every reachable state by rule
    induction on [reachable] ([inv_step]), against the [Capture] contract
    only: it holds for any recogniser that keeps the contract. Two further
    invariants are proved from what a step does to the timers
    ([step_timers]) and to the synthesis engine ([step_synth]): every
    pending restart is due within a second ([timers_window]), and at most
    one response of [speak] is live ([live_responses]). *)

From S2P Require Import Prelude JsString UserContext Dispatch Speech Recognition Home HomeRun.

Section Invariants.
Context {S : Type} `{!Capture S}.
Local Abbreviation home := (@home S).

(** ** The invariant of reachable states *)

Record inv (h : home) : Prop := {
  inv_premount : recRef h = false ->
    rec h = cap_init /\ isMounted h = false /\ isRecognizing h = false /\
    h_user h = None /\ requests h = [];
  inv_recognizing : isRecognizing h = true -> cap_started (rec h) = true;
  inv_clock : Forall (fun t => now h <= t) (timers h);
  inv_requests : Forall (fun r => exists t u, h_user h = Some u /\ r = gemini_request t /\
                                    wake_match t (assistantName u) = true) (requests h);
  inv_opened : Forall dispatch_url (opened h)
}.

(** The part of the state the invariant reads, except the windows opened. *)
Definition same_core (h h' : home) : Prop :=
  rec h' = rec h /\ isRecognizing h' = isRecognizing h /\ recRef h' = recRef h /\
  isMounted h' = isMounted h /\ h_user h' = h_user h /\ requests h' = requests h /\
  now h' = now h /\ timers h' = timers h.

(** Every pending restart is due within a second. *)
Definition timers_window (h : home) : Prop := Forall (fun t => t <= now h + 1000) (timers h).

(** The responses of [speak] still queued and not cancelled. *)
Definition live_responses (sy : synth) : nat :=
  length (List.filter (fun p => negb (snd p) &&
                                match u_onend (fst p) with SpeakOnEnd => true | NoHandler => false end)
                      (queue sy)).

(** The timer effect of a handler: none, or one restart armed [d] ms
    ahead. *)
Definition arms (h h' : home) : Prop :=
  now h' = now h /\ (timers h' = timers h \/
                     exists d, d <= 1000 /\ timers h' = timers h ++ [now h + d]).

(** ** Lemmas *)

Lemma list_min_spec (l : list nat) (d : nat) :
  list_min l = Some d -> Forall (fun t => d <= t) l.
Proof.
  revert d. induction l as [|x l IH]; intros d; simpl; [done|].
  destruct (list_min l) as [m|] eqn:E; intros [= <-].
  - constructor; [lia|]. eapply Forall_impl; [|exact (IH m eq_refl)]. intros a Ha; simpl in *; lia.
  - constructor; [lia|]. destruct l; [constructor|]. simpl in E. by destruct (list_min l).
Qed.

Lemma Forall_remove_first (P : nat -> Prop) (d : nat) (l : list nat) :
  Forall P l -> Forall P (remove_first d l).
Proof.
  induction l as [|x l IH]; simpl; [done|]. intros H. invc H.
  case_if; [done|]. constructor; auto.
Qed.

Lemma set_timeout_clock (d : nat) (h : home) :
  Forall (fun t => now h <= t) (timers h) ->
  Forall (fun t => now (set_timeout d h) <= t) (timers (set_timeout d h)).
Proof. intros H. simpl. apply Forall_snoc; [exact H|lia]. Qed.

Lemma inv_core (h h' : home) :
  inv h -> same_core h h' -> Forall dispatch_url (opened h') -> inv h'.
Proof.
  intros [Hpre Hrec Hclk Hreq Hop] (Er & Ei & Ef & Em & Eu & Eq & En & Et) Ho.
  constructor; rewrite ?Er, ?Ei, ?Ef, ?Em, ?Eu, ?Eq, ?En, ?Et; assumption.
Qed.

Lemma speak_core (t : string) (h : home) : same_core h (speak t h).
Proof. repeat split. Qed.

Lemma on_reply_core (data : option gemini_data) (p : bool) (h : home) :
  same_core h (on_reply data p h) /\
  (Forall dispatch_url (opened h) -> Forall dispatch_url (opened (on_reply data p h))).
Proof.
  unfold on_reply, handleCommand.
  destruct data as [d|]; [|split; [repeat split|done]].
  destruct (reply_type (Some d)) as [t|]; [|split; [repeat split|done]].
  destruct (open_window p (command_url t (g_userInput d))) eqn:E;
    (split; [repeat split|]); simpl; try done.
  intros H. apply Forall_snoc; [exact H|]. eapply open_window_dispatch_url; exact E.
Qed.

Lemma utterance_onend_inv (h : home) : inv h -> inv (utterance_onend h).
Proof.
  intros [Hpre Hrec Hclk Hreq Hop]. constructor; try assumption; apply set_timeout_clock; exact Hclk.
Qed.

(** Engine events cannot fire before mount: the recogniser is not live. *)
Lemma premount_not_live (h : home) :
  inv h -> recRef h = false -> cap_live (rec h) = false.
Proof. intros Hi Hr. destruct (inv_premount h Hi Hr) as [-> _]. apply cap_init_idle. Qed.

Lemma inv_init (vs : list voice) : inv (init_home vs).
Proof. constructor; simpl; try done. Qed.

Lemma live_mounted (h : home) : inv h -> cap_live (rec h) = true -> recRef h = true.
Proof.
  intros Hi Hl. destruct (recRef h) eqn:E; [done|].
  rewrite (premount_not_live h Hi E) in Hl. discriminate.
Qed.

Lemma inv_startRecognition (h : home) : inv h -> inv (startRecognition h).
Proof.
  intros Hi. destruct (startRecognition_cases h) as [->|(r & _ & _ & Hr & Hf & ->)]; [done|].
  destruct Hi as [Hpre Hrec Hclk Hreq Hop].
  constructor; simpl; try assumption; congruence.
Qed.

(** The tactic closing the invariant's fields after a handler: the
    recogniser is live so the component is mounted, the recognising flag
    was cleared, a timer was armed in the future, or the field is as it
    was. *)
Ltac inv_fields Hi Hm :=
  constructor; simpl; rewrite ?Hm;
  try (intros; discriminate); try assumption;
  try apply (inv_requests _ Hi); try apply (inv_opened _ Hi); try apply (inv_clock _ Hi);
  try (case_if; simpl; rewrite ?Hm);
  try (apply Forall_snoc; [assumption|simpl; lia]); try assumption; try (intros; discriminate).

(** ** One lemma per handler *)

Lemma inv_mount (u : option user) (h : home) : inv h -> recRef h = false -> inv (mount u h).
Proof.
  intros Hi Er. pose proof Hi as [Hpre Hrec Hclk Hreq Hop].
  destruct (Hpre Er) as (Ec & Em & Ei & Eu & Eq).
  destruct u; constructor; simpl; rewrite ?Ei, ?Eq; try done;
    apply Forall_snoc; [assumption|simpl; lia|assumption|simpl; lia].
Qed.

Lemma inv_unmount (h : home) : inv h -> isMounted h = true -> inv (unmount h).
Proof.
  intros Hi Em. pose proof Hi as [Hpre Hrec Hclk Hreq Hop].
  assert (recRef h = true) as Hm.
  { destruct (recRef h) eqn:Er; [done|]. destruct (Hpre eq_refl) as (_ & Em' & _). congruence. }
  inv_fields Hi Hm.
Qed.

Lemma inv_tick (d : nat) (h : home) :
  inv h -> forallb (fun t => now h + d <=? t) (timers h) = true -> inv (set_now (now h + d) h).
Proof.
  intros [Hpre Hrec Hclk Hreq Hop] Ef. constructor; simpl; try assumption.
  apply Forall_forall. intros t Ht.
  eapply forallb_forall in Ef; [|exact Ht]. apply Nat.leb_le in Ef. exact Ef.
Qed.

Lemma inv_timer (d : nat) (h : home) :
  inv h -> list_min (timers h) = Some d ->
  inv (startRecognition (set_timers (remove_first d (timers h)) (set_now d h))).
Proof.
  intros [Hpre Hrec Hclk Hreq Hop] Ed. apply inv_startRecognition.
  constructor; simpl; try assumption. apply Forall_remove_first, list_min_spec, Ed.
Qed.

Lemma inv_rec_start (r : S) (h : home) :
  inv h -> cap_ev_start (rec h) = Some r -> inv (onstart (set_rec r h)).
Proof.
  intros Hi Ee. pose proof Hi as [Hpre Hrec Hclk Hreq Hop].
  pose proof (live_mounted h Hi (cap_ev_start_live _ _ Ee)) as Hm.
  constructor; simpl; rewrite ?Hm; try (intros; discriminate); try assumption.
  intros _. exact (cap_ev_start_started _ _ Ee).
Qed.

Lemma inv_rec_result (res : list (list string)) (h : home) :
  inv h -> cap_ev_result (rec h) = true -> inv (onresult res h).
Proof.
  intros Hi Ee. pose proof Hi as [Hpre Hrec Hclk Hreq Hop].
  pose proof (cap_ev_result_started _ Ee) as Hst.
  pose proof (live_mounted h Hi (cap_started_live _ Hst)) as Hm.
  unfold onresult. destruct (last_transcript res) as [raw|]; [|inv_fields Hi Hm].
  destruct (h_user h) as [u|] eqn:Eu; [|inv_fields Hi Hm].
  destruct (wake_match (trim raw) (assistantName u)) eqn:Ew; [|exact Hi].
  constructor; simpl; rewrite ?Hm; try (intros; discriminate); try assumption.
  - intros _. apply cap_stop_started. exact Hst.
  - rewrite Eu. apply Forall_snoc; [assumption|]. exists (trim raw), u. done.
Qed.

Lemma inv_rec_error (code : string) (r : S) (h : home) :
  inv h -> cap_ev_error (rec h) = Some r -> inv (onerror code (set_rec r h)).
Proof.
  intros Hi Ee. pose proof Hi as [Hpre Hrec Hclk Hreq Hop].
  pose proof (live_mounted h Hi (cap_ev_error_live _ _ Ee)) as Hm.
  unfold onerror; cbv zeta. inv_fields Hi Hm.
Qed.

Lemma inv_rec_end (r : S) (h : home) :
  inv h -> cap_ev_end (rec h) = Some r -> inv (onend (set_rec r h)).
Proof.
  intros Hi Ee. pose proof Hi as [Hpre Hrec Hclk Hreq Hop].
  pose proof (live_mounted h Hi (cap_ev_end_live _ _ Ee)) as Hm.
  unfold onend; cbv zeta. inv_fields Hi Hm.
Qed.

Lemma inv_reply (data : option gemini_data) (p : bool) (l : list string) (h : home) :
  inv h -> inv (on_reply data p (set_pending l h)).
Proof.
  intros Hi. destruct (on_reply_core data p (set_pending l h)) as [Hc Ho].
  eapply inv_core; [|exact Hc|apply Ho, (inv_opened _ Hi)]. destruct Hi; constructor; assumption.
Qed.

Lemma inv_set_h_synth (sy : synth) (h : home) : inv h -> inv (set_h_synth sy h).
Proof. intros []; constructor; assumption. Qed.

Lemma inv_menu (b : bool) (h : home) : inv h -> inv (set_ham b h).
Proof. intros []; constructor; assumption. Qed.

(** The handler lemma for the handler at the head of the goal. *)
Ltac inv_handler Hi :=
  match goal with
  | |- inv (mount _ _) => apply inv_mount; [exact Hi|assumption]
  | |- inv (unmount _) => apply inv_unmount; [exact Hi|assumption]
  | |- inv (set_now _ _) => apply inv_tick; [exact Hi|assumption]
  | |- inv (startRecognition _) => apply inv_timer; [exact Hi|assumption]
  | |- inv (onstart _) => apply inv_rec_start; [exact Hi|assumption]
  | |- inv (onresult _ _) => apply inv_rec_result; [exact Hi|assumption]
  | |- inv (onerror _ _) => apply inv_rec_error; [exact Hi|assumption]
  | |- inv (onend _) => apply inv_rec_end; [exact Hi|assumption]
  | |- inv (on_reply _ _ _) => apply inv_reply, Hi
  | |- inv (utterance_onend _) => apply utterance_onend_inv, inv_set_h_synth, Hi
  | |- inv (set_h_synth _ _) => apply inv_set_h_synth, Hi
  | |- inv (set_ham _ _) => apply inv_menu, Hi
  end.

Lemma inv_step (h h' : home) (e : event) : inv h -> step h e = Some h' -> inv h'.
Proof. intros Hi Hs. destruct e; step_destruct Hs; inv_handler Hi. Qed.

Lemma reachable_inv (vs : list voice) (h : home) : reachable vs h -> inv h.
Proof.
  induction 1 as [|h e h' _ IH Hs]; [apply inv_init|]. eapply inv_step; eassumption.
Qed.

(** Only the mount effect sets the captured profile and the recogniser ref. *)
Lemma step_keeps_profile (h h' : home) (e : event) :
  step h e = Some h' -> (forall u, e <> EvMount u) ->
  h_user h' = h_user h /\ recRef h' = recRef h.
Proof.
  intros Hs Hne. destruct e as [u| |d| | |res|code| |i data p|i|b]; simpl in Hs;
    [by destruct (Hne u)|..]; repeat (case_match; simplify_eq/=); try done.
  all: try (rewrite startRecognition_frame; done).
  all: unfold onresult, onerror, onend, on_reply, handleCommand, utterance_onend;
       repeat (case_match; simplify_eq/=); done.
Qed.

(** What a step does to the synthesis engine: nothing, the greeting of
    the mount, the cancel and speak of a reply, or the end of an
    utterance. *)
Lemma step_synth (h h' : home) (e : event) :
  step h e = Some h' ->
  h_synth h' = h_synth h \/
  (exists u, h_synth h' = synth_speak (greeting u) (h_synth h)) \/
  (exists t, h_synth h' = cancel_and_speak (make_utterance t (voices (h_synth h))) (h_synth h)) \/
  (exists i u, synth_end i (h_synth h) = Some (u, h_synth h')).
Proof.
  intros Hs. destruct e as [u| |d| | |res|code| |i data p|i|b]; simpl in Hs.
  1: { destruct (recRef h); [done|]. injection Hs as <-.
       destruct u as [u|]; [right; left; by exists u|by left]. }
  all: repeat (case_match; simplify_eq/=); try (left; reflexivity).
  all: try (rewrite startRecognition_frame; left; reflexivity).
  all: try (right; left; eexists; reflexivity).
  all: try (right; right; right; do 2 eexists; eassumption).
  all: unfold onresult, onerror, onend, on_reply, handleCommand in *;
       repeat (case_match; simplify_eq/=); try (left; reflexivity);
       right; right; left; eexists; reflexivity.
Qed.

Lemma arms_none (h h' : home) : now h' = now h -> timers h' = timers h -> arms h h'.
Proof. intros En Et. split; [exact En|by left]. Qed.

(** A handler that only touches fields other than the clock and the
    timers, then may arm a restart. *)
Lemma arms_if (b : bool) (d : nat) (h0 h : home) :
  now h = now h0 -> timers h = timers h0 -> d <= 1000 ->
  arms h0 (if b then set_timeout d h else h).
Proof.
  intros En Et Hd. split; [by destruct b|].
  destruct b; simpl; rewrite Et, ?En; [right; by exists d|by left].
Qed.

(** A handler that arms at most one restart, whatever its condition. *)
Ltac arms_tac :=
  first [apply arms_if; [done|done|lia] | apply (arms_if true); [done|done|lia]
        | apply arms_none; reflexivity].

Lemma arms_onresult (res : list (list string)) (h : home) : arms h (onresult res h).
Proof. apply arms_none; unfold onresult; repeat case_match; reflexivity. Qed.

Lemma arms_onerror (code : string) (r : S) (h : home) : arms h (onerror code (set_rec r h)).
Proof. unfold onerror. cbv zeta. arms_tac. Qed.

Lemma arms_onend (r : S) (h : home) : arms h (onend (set_rec r h)).
Proof. unfold onend. cbv zeta. arms_tac. Qed.

Lemma arms_on_reply (data : option gemini_data) (p : bool) (l : list string) (h : home) :
  arms h (on_reply data p (set_pending l h)).
Proof.
  destruct (on_reply_core data p (set_pending l h)) as [(_ & _ & _ & _ & _ & _ & En & Et) _].
  exact (arms_none _ _ En Et).
Qed.

(** What a step does to the timers and the clock: a handler that arms at
    most one restart at most 1000 ms ahead, a tick that passes no deadline,
    or the earliest deadline fired. *)
Lemma step_timers (h h' : home) (e : event) :
  step h e = Some h' ->
  arms h h' \/
  (exists d, timers h' = timers h /\ now h' = now h + d /\ Forall (fun t => now h + d <= t) (timers h)) \/
  (exists d, list_min (timers h) = Some d /\ timers h' = remove_first d (timers h) /\ now h' = d).
Proof.
  intros Hs. destruct e as [u| |d| | |res|code| |i data p|i|b]; step_destruct Hs.
  - left. split; [by destruct u|]. right. exists 1000. by destruct u.
  - left. by apply arms_none.
  - right; left. exists d. split_and!; [done|done|]. apply Forall_forall. intros t Ht.
    apply Nat.leb_le. eapply forallb_forall; [eassumption|exact Ht].
  - right; right. eexists. rewrite startRecognition_frame. split_and!; [reflexivity|done|done].
  - left. by apply arms_none.
  - left. apply arms_onresult.
  - left. apply arms_onerror.
  - left. apply arms_onend.
  - left. apply arms_on_reply.
  - left. by apply arms_none.
  - left. unfold utterance_onend. arms_tac.
  - left. by apply arms_none.
Qed.

Lemma filter_andb {A} (f g : A -> bool) (l : list A) :
  List.filter (fun x => f x && g x) l = List.filter g (List.filter f l).
Proof.
  induction l as [|x l IH]; simpl; [done|].
  destruct (f x); simpl; [destruct (g x)|]; by rewrite IH.
Qed.

Lemma length_filter_delete {A} (f : A -> bool) (l : list A) (i : nat) :
  length (List.filter f (delete i l)) <= length (List.filter f l).
Proof.
  revert i. induction l as [|x l IH]; intros [|i]; simpl; [lia|lia| |].
  - destruct (f x); simpl; lia.
  - destruct (f x); simpl; specialize (IH i); lia.
Qed.

Lemma live_responses_greeting (u : user) (sy : synth) :
  live_responses (synth_speak (greeting u) sy) = live_responses sy.
Proof. unfold live_responses. simpl. by rewrite filter_app, app_nil_r. Qed.

Lemma live_responses_cancel_and_speak (u : utterance) (sy : synth) :
  live_responses (cancel_and_speak u sy) <= 1.
Proof.
  unfold live_responses. rewrite (filter_andb (fun p => negb (snd p))), cancel_and_speak_live.
  simpl. case_match; simpl; lia.
Qed.

Lemma live_responses_end (i : nat) (sy sy' : synth) (u : utterance) :
  synth_end i sy = Some (u, sy') -> live_responses sy' <= live_responses sy.
Proof.
  unfold synth_end. destruct (queue sy !! i) as [[u' b]|]; [|done]. case_if; [|done].
  intros [= <- <-]. apply length_filter_delete.
Qed.

Lemma window_step (h h' : home) (e : event) :
  inv h -> timers_window h -> step h e = Some h' -> timers_window h'.
Proof.
  unfold timers_window. intros Hi Hw Hs.
  destruct (step_timers h h' e Hs) as [[En [->|(d & Hd & ->)]]|[(d & -> & -> & _)|(d & Ed & -> & ->)]];
    rewrite ?En.
  - exact Hw.
  - apply Forall_snoc; [exact Hw|lia].
  - eapply Forall_impl; [|exact Hw]. intros t Ht; simpl in *; lia.
  - pose proof (list_min_in _ _ Ed) as Hin.
    pose proof (proj1 (Forall_forall _ _) (inv_clock h Hi) d Hin) as Hd.
    apply Forall_remove_first. eapply Forall_impl; [|exact Hw]. intros t Ht; simpl in *; lia.
Qed.

Lemma reachable_window (vs : list voice) (h : home) : reachable vs h -> timers_window h.
Proof.
  induction 1 as [|h e h' Hr IH Hs]; [constructor|].
  exact (window_step h h' e (reachable_inv vs h Hr) IH Hs).
Qed.

(** Before its effect has run, the page has no restart, no utterance and
    no outstanding request: no event but the mount can change that, since
    the recogniser is idle and nothing is queued. *)
Lemma reachable_premount_quiet (vs : list voice) (h : home) :
  reachable vs h -> recRef h = false ->
  timers h = [] /\ queue (h_synth h) = [] /\ pending h = [].
Proof.
  induction 1 as [|h e h' Hr IH Hs]; [done|]. intros Ef.
  assert (forall u, e <> EvMount u) as Hne.
  { intros u ->. step_destruct Hs. destruct u; simpl in Ef; discriminate. }
  destruct (step_keeps_profile h h' e Hs Hne) as [_ Ef']. rewrite Ef' in Ef.
  destruct (IH Ef) as (Et & Eq & Ep).
  destruct (inv_premount h (reachable_inv vs h Hr) Ef) as (Ec & Em & _).
  destruct e as [u| |d| | |res|code| |i data p|i|b]; [by destruct (Hne u)|..];
    step_destruct Hs; try (split_and!; assumption); exfalso.
  all: rewrite ?Et, ?Ep, ?Ec in *; try congruence.
  all: try match goal with
       | H : cap_ev_start cap_init = Some _ |- _ => apply cap_ev_start_live in H
       | H : cap_ev_result cap_init = true |- _ => apply cap_ev_result_started, cap_started_live in H
       | H : cap_ev_error cap_init = Some _ |- _ => apply cap_ev_error_live in H
       | H : cap_ev_end cap_init = Some _ |- _ => apply cap_ev_end_live in H
       end; rewrite ?cap_init_idle in *; try discriminate.
  all: unfold synth_end in *; rewrite ?Eq in *; simpl in *; by rewrite ?lookup_nil in *.
Qed.

(** ** Theorems about every reachable state *)

(** C10: the recognising flag never outlives the session: whenever
    [isRecognizingRef] is true, the recogniser has fired [start] and neither
    [error] nor [end] since. *)
Theorem reachable_recognizing_started (vs : list voice) (h : home) :
  reachable vs h -> isRecognizing h = true -> cap_started (rec h) = true.
Proof. intros Hr. exact (inv_recognizing h (reachable_inv vs h Hr)). Qed.

(** C11: every request ever sent to the assistant carries, as its only
    field, a transcript containing the profile's wake word
    (case-insensitively): no other text leaves the page. *)
Theorem reachable_requests_wake (vs : list voice) (h : home) :
  reachable vs h ->
  Forall (fun r => exists t u, h_user h = Some u /\ r = gemini_request t /\
                              wake_match t (assistantName u) = true) (requests h).
Proof. intros Hr. exact (inv_requests h (reachable_inv vs h Hr)). Qed.

(** C12: capture starts only from a restart timer, and only while the
    assistant is not speaking: a step after which the recogniser is live
    when it was not is the timer event, its [startRecognition] found the
    speaking flag clear and the recogniser present, and the flag is still
    clear after it. (Neither an outstanding request nor unmount stops it:
    see [speaking_while_capturing] and [restart_after_unmount].) *)
Theorem step_capture_start (h h' : home) (e : event) :
  step h e = Some h' -> cap_live (rec h) = false -> cap_live (rec h') = true ->
  e = EvTimer /\ isSpeaking h = false /\ recRef h = true /\ isSpeaking h' = false.
Proof.
  intros Hs Hl Hl'. destruct e as [u| |d| | |res|code| |i data p|i|b]; step_destruct Hs.
  all: try (exfalso; simpl in Hl'; congruence).
  - exfalso. destruct u; simpl in Hl'; rewrite cap_init_idle in Hl'; discriminate.
  - exfalso. simpl in Hl'. rewrite cap_stop_live in Hl'. congruence.
  - destruct (startRecognition_cases (set_timers (remove_first n (timers h)) (set_now n h)))
      as [E|(r & _ & Hs & _ & Hf & E)]; rewrite E in Hl' |- *; [simpl in Hl'; congruence|].
    split_and!; done.
  - exfalso. apply cap_ev_start_live in H. congruence.
  - exfalso. pose proof (cap_started_live _ (cap_ev_result_started _ H)). congruence.
  - exfalso. apply cap_ev_error_live in H. congruence.
  - exfalso. apply cap_ev_end_live in H. congruence.
  - exfalso. destruct (on_reply_core data p (set_pending (delete i (pending h)) h)) as [[Er _] _].
    rewrite Er in Hl'. simpl in Hl'. congruence.
Qed.

(** C28: every pending restart is due within the next second: its
    deadline lies between the clock and the clock plus 1000 ms, since the
    code arms restarts 800 or 1000 ms ahead and time never passes a
    deadline. *)
Theorem reachable_timers_window (vs : list voice) (h : home) :
  reachable vs h -> Forall (fun t => now h <= t <= now h + 1000) (timers h).
Proof.
  intros Hr. apply Forall_and; [exact (inv_clock h (reachable_inv vs h Hr))|].
  exact (reachable_window vs h Hr).
Qed.

(** C29: [speak] interrupts rather than queues (spec section 4.3): in every
    reachable state at most one response of [speak] is queued and not
    cancelled; a newer response cancels every older one, and the greeting
    is not a response. *)
Theorem reachable_one_response (vs : list voice) (h : home) :
  reachable vs h -> live_responses (h_synth h) <= 1.
Proof.
  induction 1 as [|h e h' Hr IH Hs]; [unfold live_responses; simpl; lia|].
  destruct (step_synth h h' e Hs) as [->|[[u ->]|[[t ->]|(i & u & Ee)]]].
  - exact IH.
  - by rewrite live_responses_greeting.
  - apply live_responses_cancel_and_speak.
  - pose proof (live_responses_end _ _ _ _ Ee). lia.
Qed.

End Invariants.
