(* ===== verification/Modes.v ===== *)
(** * The interaction modes of spec section 4.1 and the code's steps

    The spec's coordinator is a machine on four modes (Idle, Listening,
    Awaiting-Reply, Speaking), exactly one at any instant. The code keeps
    no mode: it keeps [isSpeakingRef], the recogniser and the outstanding
    [getGeminiResponse] calls. [mode_of] reads the mode off those three
    (the microphone is captured, a request is outstanding, the speaking
    flag is set), and is [None] where more than one holds, a state the
    spec's machine has no name for. [spec_step] is the machine of section
    4.1, labelled by the kind of event ([ev_kind]). The refinement theorem
    says that every step of the code from a state with a mode is a step of
    that machine or one of five races ([race]), and [HomeTraces] shows each
    race on a run from the page before mount, so the list is exact. *)

From S2P Require Import Prelude JsString UserContext Dispatch Speech Recognition Home HomeRun HomeInv.

Inductive mode := Idle | Listening | AwaitingReply | Speaking.

#[export] Instance mode_eq_dec : EqDecision mode.
Proof. solve_decision. Defined.

(** The kinds of event the spec's transitions name. *)
Inductive kind :=
| KMount | KUnmount | KTime | KTimer
| KRecStart | KRecResult | KRecFault
| KReply (wellformed : bool)
| KSynthEnd | KMenu.

(** The reply is well formed: [on_reply] takes its first branch. *)
Definition reply_ok (data : option gemini_data) : bool :=
  match reply_type data with Some _ => true | None => false end.

Definition ev_kind (e : event) : kind :=
  match e with
  | EvMount _ => KMount
  | EvUnmount => KUnmount
  | EvTick _ => KTime
  | EvTimer => KTimer
  | EvRecStart => KRecStart
  | EvRecResult _ => KRecResult
  | EvRecError _ | EvRecEnd => KRecFault
  | EvReply _ data _ => KReply (reply_ok data)
  | EvSynthEnd _ => KSynthEnd
  | EvMenu _ => KMenu
  end.

(** The machine of spec section 4.1; an event may leave the mode as it is. *)
Inductive spec_step : mode -> kind -> mode -> Prop :=
| spec_stay m k : spec_step m k m
| spec_mount : spec_step Idle KMount Listening
| spec_restart : spec_step Idle KTimer Listening
| spec_wake : spec_step Listening KRecResult AwaitingReply
| spec_reply : spec_step AwaitingReply (KReply true) Speaking
| spec_reply_malformed : spec_step AwaitingReply (KReply false) Listening
| spec_playback_done : spec_step Speaking KSynthEnd Idle
| spec_capture_fault : spec_step Listening KRecFault Idle
| spec_teardown : spec_step Listening KUnmount Idle.

(** The code's steps that are not steps of the machine. *)
Inductive race : mode -> kind -> option mode -> Prop :=
| race_restart_awaiting : race AwaitingReply KTimer None
    (** the restart armed by the wake-word stop's [end] opens the microphone while the reply is awaited *)
| race_late_result_idle : race Idle KRecResult (Some AwaitingReply)
    (** a result delivered after [stop()] sends a request *)
| race_late_result_speaking : race Speaking KRecResult None
    (** the same while a response is spoken *)
| race_reply_no_resume : race AwaitingReply (KReply false) (Some Idle)
    (** a malformed reply does not resume listening *)
| race_reply_overlap : race AwaitingReply (KReply true) None.
    (** a reply is spoken while another request is outstanding *)

Section Flags.
Context {S : Type} `{!Capture S}.
Local Abbreviation home := (@home S).

(** What the mode is read from: the microphone is captured, the requests
    outstanding, [isSpeakingRef]. *)
Definition flags (h : home) : bool * list string * bool :=
  (cap_capturing (rec h), pending h, isSpeaking h).

Definition mode_of_flags (f : bool * list string * bool) : option mode :=
  match f with
  | (false, [], false) => Some Idle
  | (true, [], false) => Some Listening
  | (false, _ :: _, false) => Some AwaitingReply
  | (false, [], true) => Some Speaking
  | _ => None
  end.

Definition mode_of (h : home) : option mode := mode_of_flags (flags h).

(** ** What each handler does to the flags *)

Lemma flags_set_rec (r : S) (h : home) :
  flags (set_rec r h) = (cap_capturing r, pending h, isSpeaking h).
Proof. reflexivity. Qed.

Lemma flags_onstart (h : home) : flags (onstart h) = flags h.
Proof. reflexivity. Qed.

Lemma flags_onend (h : home) : flags (onend h) = flags h.
Proof. unfold onend. by try case_match. Qed.

Lemma flags_onerror (code : string) (h : home) : flags (onerror code h) = flags h.
Proof. unfold onerror. by try case_match. Qed.

Lemma flags_utterance_onend (h : home) :
  flags (utterance_onend h) = (cap_capturing (rec h), pending h, false).
Proof. reflexivity. Qed.

Lemma flags_mount (u : option user) (h : home) :
  flags (mount u h) = (cap_capturing cap_init, pending h, isSpeaking h).
Proof. unfold mount. by try case_match. Qed.

Lemma flags_on_reply (data : option gemini_data) (p : bool) (h : home) :
  flags (on_reply data p h) = (cap_capturing (rec h), pending h, reply_ok data || isSpeaking h).
Proof.
  unfold on_reply, reply_ok, handleCommand.
  destruct data as [d|]; [|reflexivity]. destruct (reply_type (Some d)); [|reflexivity].
  by case_match.
Qed.

Lemma flags_onresult (res : list (list string)) (h : home) :
  flags (onresult res h) = flags h \/
  exists t, flags (onresult res h) = (cap_capturing (cap_stop (rec h)), pending h ++ [t], isSpeaking h).
Proof.
  unfold onresult. repeat case_match; auto. right. eexists. reflexivity.
Qed.

Lemma flags_startRecognition (h : home) :
  flags (startRecognition h) = flags h \/
  exists r, cap_start (rec h) = Some r /\ isSpeaking h = false /\
            flags (startRecognition h) = (cap_capturing r, pending h, false).
Proof.
  destruct (startRecognition_cases h) as [->|(r & Er & Es & _ & _ & ->)]; [by left|].
  right. exists r. by rewrite flags_set_rec, Es.
Qed.

End Flags.

(** ** Refinement, on the Web Speech instance

    The theorem is stated for the Web Speech life cycle: the [Capture]
    contract does not say whether the [start] event or a [result] may find
    the microphone released, and the Web Speech engine fixes both. *)

Section Refinement.
Local Abbreviation home := (@home rec_status).

Ltac mode_solve :=
  first [ match goal with H : mode_of_flags _ = Some ?m |- _ =>
            left; exists m; split; [exact H|apply spec_stay] end
        | left; eexists; split; [reflexivity|constructor]
        | right; constructor ].

(** The last step of the case analysis: the flags before and after are
    explicit, and the mode before is given. *)
Ltac mode_cases :=
  unfold mode_of_flags in *; repeat (case_match; simplify_eq/=); try mode_solve.

(** A step of the code from a reachable state that exhibits the race. *)
Definition race_occurs (vs : list voice) (m : mode) (k : kind) (o : option mode) : Prop :=
  exists (h h' : home) (e : event), reachable vs h /\ step h e = Some h' /\
    mode_of h = Some m /\ ev_kind e = k /\ mode_of h' = o.

Lemma before_mount_idle (vs : list voice) (h : home) :
  reachable vs h -> recRef h = false -> rec h = RIdle.
Proof. intros Hr Ef. apply (inv_premount h (reachable_inv vs h Hr) Ef). Qed.

(** C9: the code refines the interaction machine of spec section 4.1 up
    to five races: every step of Home's event loop from a reachable state
    with a mode either is a transition of the machine for that kind of
    event, or is one of the races of [race]: a restart opening the
    microphone while a reply is awaited, a result delivered after [stop()]
    sending a request (from Idle or while speaking), a malformed reply
    leaving the coordinator Idle instead of Listening, and a reply spoken
    while another request is outstanding. *)
Theorem step_refines_modes (vs : list voice) (h h' : home) (e : event) (m : mode) :
  reachable vs h -> mode_of h = Some m -> step h e = Some h' ->
  (exists m', mode_of h' = Some m' /\ spec_step m (ev_kind e) m') \/
  race m (ev_kind e) (mode_of h').
Proof.
  intros Hr Hm Hs. unfold mode_of in *.
  destruct e as [u| |d| | |res|code| |i data p|i|b]; step_destruct Hs; cbn [ev_kind].
  - rewrite flags_mount. unfold flags in *.
    rewrite (before_mount_idle vs h Hr) in Hm by assumption. cbn in *. mode_cases.
  - unfold flags in *. cbn in *. destruct (rec h); mode_cases.
  - mode_solve.
  - destruct (flags_startRecognition (set_timers (remove_first n (timers h)) (set_now n h)))
      as [->|(r & Er & Es & ->)]; [mode_solve|].
    unfold flags in *. cbn in *. destruct (rec h); simplify_eq/=; mode_cases.
  - rewrite flags_onstart, flags_set_rec. unfold flags in *. destruct (rec h); simplify_eq/=; mode_cases.
  - destruct (flags_onresult res h) as [->|[t ->]]; [mode_solve|].
    unfold flags in *. destruct (rec h); simplify_eq/=; mode_cases.
  - rewrite flags_onerror, flags_set_rec. unfold flags in *.
    destruct (rec h); simplify_eq/=; mode_cases.
  - rewrite flags_onend, flags_set_rec. unfold flags in *.
    destruct (rec h); simplify_eq/=; mode_cases.
  - rewrite flags_on_reply. unfold flags in *. cbn in *.
    destruct (pending h) as [|x l]; [by rewrite lookup_nil in *|].
    destruct (delete i (x :: l)), (reply_ok data); mode_cases.
  - mode_solve.
  - rewrite flags_utterance_onend. unfold flags in *. cbn in *. mode_cases.
  - mode_solve.
Qed.

End Refinement.
