(* ===== verification/HomeLive.v ===== *)
(** * Liveness of the capture loop

    The spec (section 7) wants the loop to heal itself until teardown. The
    code has no single owner of the restart, but it never loses it: a
    second invariant [live_inv], proved by rule induction against the
    [Capture] contract, says that the speaking flag is only set while a
    response of [speak] is queued (its end re-arms capture), and that a
    mounted page whose recogniser is idle, that is not speaking and has no
    response queued, has a restart pending. From it, on the Web Speech
    instance: from every reachable mounted state, letting the queued
    utterances end, the recogniser's pending [end] fire, the earliest timer
    fire and the recogniser's [start] fire brings capture back. *)

From S2P Require Import Prelude JsString UserContext Dispatch Speech Recognition Home HomeRun HomeInv.

(** A response of [speak] is queued, cancelled or not: its end will run
    lines 51-55. *)
Definition speak_queued (sy : synth) : bool :=
  existsb (fun p => match u_onend (fst p) with SpeakOnEnd => true | NoHandler => false end)
    (queue sy).

Section Live.
Context {S : Type} `{!Capture S}.
Local Abbreviation home := (@home S).

Record live_inv (h : home) : Prop := {
  li_speaking : isSpeaking h = true -> speak_queued (h_synth h) = true;
  li_restart : isMounted h = true -> cap_live (rec h) = false -> isSpeaking h = false ->
               speak_queued (h_synth h) = false -> timers h <> []
}.

(** ** Lemmas *)

Lemma set_timeout_nonempty (d : nat) (h : home) : timers (set_timeout d h) <> [].
Proof. simpl. intros Hn. apply app_eq_nil in Hn as [_ Hn]. discriminate. Qed.

Lemma speak_queued_speak (t : string) (h : home) : speak_queued (h_synth (speak t h)) = true.
Proof. unfold speak_queued. simpl. rewrite existsb_app. apply orb_true_intro. by right. Qed.

Lemma speak_queued_synth_speak (u : utterance) (sy : synth) :
  speak_queued sy = true -> speak_queued (synth_speak u sy) = true.
Proof. unfold speak_queued. simpl. rewrite existsb_app. intros ->. done. Qed.

Lemma existsb_delete {A} (f : A -> bool) (l : list A) (i : nat) (x : A) :
  l !! i = Some x -> f x = false -> existsb f (delete i l) = existsb f l.
Proof.
  revert i. induction l as [|y l IH]; intros [|i] Hi Hf; simpl in *; simplify_eq.
  - by rewrite Hf.
  - by rewrite (IH i Hi Hf).
Qed.

(** The end of a greeting leaves the queued responses as they were. *)
Lemma synth_end_queued (i : nat) (sy sy' : synth) (u : utterance) :
  synth_end i sy = Some (u, sy') -> u_onend u = NoHandler -> speak_queued sy' = speak_queued sy.
Proof.
  unfold synth_end. destruct (queue sy !! i) as [[u' b]|] eqn:E; [|done].
  case_if; [|done]. intros [= <- <-] Hu. unfold speak_queued. simpl.
  apply (existsb_delete _ _ _ _ E). simpl. by rewrite Hu.
Qed.

(** The reply either speaks a response or leaves the flag and the engine
    alone. *)
Lemma on_reply_speaking (data : option gemini_data) (p : bool) (h : home) :
  (isSpeaking (on_reply data p h) = true /\ speak_queued (h_synth (on_reply data p h)) = true) \/
  (isSpeaking (on_reply data p h) = isSpeaking h /\ h_synth (on_reply data p h) = h_synth h).
Proof.
  unfold on_reply, handleCommand. destruct data as [d|]; [|by right].
  destruct (reply_type (Some d)) as [t|]; [|by right]. left.
  destruct (open_window _ _); simpl; split; try done; apply (speak_queued_speak _ h).
Qed.

(** On a live recogniser [start()] throws and is swallowed. *)
Lemma startRecognition_live (h : home) :
  cap_live (rec h) = true -> rec (startRecognition h) = rec h.
Proof.
  intros Hl. apply cap_start_throws in Hl. unfold startRecognition. rewrite Hl.
  by repeat case_if.
Qed.

(** On an idle recogniser of a mounted page that is not speaking, the
    timer's [startRecognition] starts a session. *)
Lemma startRecognition_idle (h : home) :
  isSpeaking h = false -> isRecognizing h = false -> recRef h = true ->
  cap_live (rec h) = false -> cap_live (rec (startRecognition h)) = true.
Proof.
  intros Hs Hr Hf Hl. unfold startRecognition. rewrite Hs, Hr, Hf. simpl.
  destruct (cap_start (rec h)) as [r|] eqn:E.
  - exact (proj1 (cap_start_fresh _ _ E)).
  - apply cap_start_throws in E. congruence.
Qed.

(** What [inv] says of an idle recogniser on a mounted page. *)
Lemma inv_idle (h : home) :
  inv h -> isMounted h = true -> cap_live (rec h) = false ->
  isRecognizing h = false /\ recRef h = true.
Proof.
  intros Hi Hm Hl. split.
  - destruct (isRecognizing h) eqn:E; [|done].
    pose proof (cap_started_live _ (inv_recognizing h Hi E)). congruence.
  - destruct (recRef h) eqn:E; [done|]. destruct (inv_premount h Hi E) as (_ & Hm' & _). congruence.
Qed.

Lemma live_inv_init (vs : list voice) : live_inv (init_home vs).
Proof. constructor; simpl; intros; discriminate. Qed.

(** The state [live_inv] reads is as it was. *)
Lemma live_inv_frame (h h' : home) :
  live_inv h -> isSpeaking h' = isSpeaking h -> h_synth h' = h_synth h ->
  rec h' = rec h -> isMounted h' = isMounted h -> timers h' = timers h -> live_inv h'.
Proof.
  intros [Hs Hr] E1 E2 E3 E4 E5. constructor; rewrite E1, E2, ?E3, ?E4, ?E5; assumption.
Qed.

(** A handler that leaves the recogniser live. *)
Lemma live_inv_live (h h' : home) :
  live_inv h -> isSpeaking h' = isSpeaking h -> h_synth h' = h_synth h ->
  cap_live (rec h') = true -> live_inv h'.
Proof.
  intros [Hs _] E1 E2 Hl. constructor; [rewrite E1, E2; exact Hs|]. congruence.
Qed.

(** ** One lemma per handler *)

Lemma li_mount (u : option user) (h : home) : live_inv h -> live_inv (mount u h).
Proof.
  intros [Hsp Hre]. destruct u as [u|]; constructor; simpl; try (intros; apply set_timeout_nonempty).
  - intros H. apply speak_queued_synth_speak, Hsp, H.
  - exact Hsp.
Qed.

Lemma li_unmount (h : home) : live_inv h -> live_inv (unmount h).
Proof. intros [Hsp _]. constructor; [exact Hsp|simpl; discriminate]. Qed.

Lemma li_timer (d : nat) (h : home) :
  inv h -> live_inv h -> live_inv (startRecognition (set_timers (remove_first d (timers h)) (set_now d h))).
Proof.
  intros Hi [Hsp _]. rewrite startRecognition_frame.
  set (h1 := set_timers (remove_first d (timers h)) (set_now d h)).
  constructor; [exact Hsp|]. simpl. intros Hm Hl Hsp' _. exfalso.
  destruct (cap_live (rec h)) eqn:El.
  - rewrite (startRecognition_live h1 El) in Hl. simpl in Hl. congruence.
  - destruct (inv_idle h Hi Hm El) as [Hr Hf].
    rewrite (startRecognition_idle h1 Hsp' Hr Hf El) in Hl. discriminate.
Qed.

Lemma li_rec_start (r : S) (h : home) :
  cap_ev_start (rec h) = Some r -> live_inv h -> live_inv (onstart (set_rec r h)).
Proof.
  intros E Hli. apply (live_inv_live h); try done. simpl.
  apply cap_started_live, (cap_ev_start_started _ _ E).
Qed.

Lemma li_rec_result (res : list (list string)) (h : home) :
  cap_ev_result (rec h) = true -> live_inv h -> live_inv (onresult res h).
Proof.
  intros E Hli. pose proof (cap_started_live _ (cap_ev_result_started _ E)) as Hl.
  unfold onresult. repeat case_match; apply (live_inv_live h); try done.
  simpl. by rewrite cap_stop_live.
Qed.

Lemma li_rec_error (code : string) (r : S) (h : home) :
  cap_ev_error (rec h) = Some r -> live_inv h -> live_inv (onerror code (set_rec r h)).
Proof.
  intros E Hli. apply (live_inv_live h); [exact Hli|..]; unfold onerror; cbv zeta; try case_if;
    try reflexivity; apply (cap_ev_error_stopped _ _ E).
Qed.

(** The end of a session re-arms capture unless the page is speaking or
    unmounted. *)
Lemma li_rec_end (r : S) (h : home) :
  cap_ev_end (rec h) = Some r -> live_inv h -> live_inv (onend (set_rec r h)).
Proof.
  intros _ [Hsp _]. unfold onend; cbv zeta. simpl. case_if.
  - constructor; [exact Hsp|intros; apply set_timeout_nonempty].
  - constructor; [exact Hsp|]. simpl. intros Hm _ Hs' _. rewrite Hm, Hs' in *. discriminate.
Qed.

Lemma li_reply (data : option gemini_data) (p : bool) (l : list string) (h : home) :
  live_inv h -> live_inv (on_reply data p (set_pending l h)).
Proof.
  intros Hli. set (h1 := set_pending l h).
  destruct (on_reply_core data p h1) as [(Er & _ & _ & Em & _ & _ & _ & Et) _].
  destruct (on_reply_speaking data p h1) as [[E1 E2]|[E1 E2]].
  - constructor; [intros; exact E2|]. intros _ _ Hs'. congruence.
  - apply (live_inv_frame h); [exact Hli|..]; assumption.
Qed.

Lemma li_synth_end_greeting (i : nat) (u : utterance) (sy : synth) (h : home) :
  synth_end i (h_synth h) = Some (u, sy) -> u_onend u = NoHandler ->
  live_inv h -> live_inv (set_h_synth sy h).
Proof.
  intros E Eu [Hsp Hre]. constructor; simpl; rewrite (synth_end_queued _ _ _ _ E Eu); assumption.
Qed.

Lemma li_utterance_onend (h : home) : live_inv (utterance_onend h).
Proof. constructor; [simpl; discriminate|intros; apply set_timeout_nonempty]. Qed.

(** The handler lemma for the handler at the head of the goal. *)
Ltac li_handler Hi Hli :=
  match goal with
  | |- live_inv (mount _ _) => apply li_mount, Hli
  | |- live_inv (unmount _) => apply li_unmount, Hli
  | |- live_inv (set_now _ _) => apply (live_inv_frame _ _ Hli); reflexivity
  | |- live_inv (startRecognition _) => apply li_timer; [exact Hi|exact Hli]
  | |- live_inv (onstart _) => apply li_rec_start; [assumption|exact Hli]
  | |- live_inv (onresult _ _) => apply li_rec_result; [assumption|exact Hli]
  | |- live_inv (onerror _ _) => apply li_rec_error; [assumption|exact Hli]
  | |- live_inv (onend _) => apply li_rec_end; [assumption|exact Hli]
  | |- live_inv (on_reply _ _ _) => apply li_reply, Hli
  | |- live_inv (utterance_onend _) => apply li_utterance_onend
  | |- live_inv (set_h_synth _ _) => eapply li_synth_end_greeting; [eassumption|assumption|exact Hli]
  | |- live_inv (set_ham _ _) => apply (live_inv_frame _ _ Hli); reflexivity
  end.

Lemma live_inv_step (h h' : home) (e : event) :
  inv h -> live_inv h -> step h e = Some h' -> live_inv h'.
Proof. intros Hi Hli Hs. destruct e; step_destruct Hs; li_handler Hi Hli. Qed.

Lemma reachable_live_inv (vs : list voice) (h : home) : reachable vs h -> live_inv h.
Proof.
  induction 1 as [|h e h' Hr IH Hs]; [apply live_inv_init|].
  eapply live_inv_step; [apply (reachable_inv vs h Hr)|exact IH|exact Hs].
Qed.

Lemma synth_end_head (sy : synth) (u : utterance) (b : bool) (q : list (utterance * bool)) :
  queue sy = (u, b) :: q -> synth_end 0 sy = Some (u, mkSynth q (voices sy)).
Proof. intros E. unfold synth_end, synth_can_end. rewrite E. by destruct b. Qed.

(** The queued utterances can all end, the first one first; this changes
    neither the recogniser nor the mount state. *)
Lemma drain (h : home) :
  exists es h', run h es = Some h' /\ queue (h_synth h') = [] /\
    rec h' = rec h /\ isMounted h' = isMounted h.
Proof.
  remember (length (queue (h_synth h))) as n eqn:En. revert h En.
  induction n as [|n IH]; intros h En.
  - exists [], h. destruct (queue (h_synth h)); [done|discriminate].
  - destruct (queue (h_synth h)) as [|[u b] q] eqn:Eq; [discriminate|].
    set (h1 := set_h_synth (mkSynth q (voices (h_synth h))) h).
    set (h2 := match u_onend u with SpeakOnEnd => utterance_onend h1 | NoHandler => h1 end).
    assert (step h (EvSynthEnd 0) = Some h2) as Hs.
    { simpl. by rewrite (synth_end_head _ _ _ _ Eq). }
    assert (queue (h_synth h2) = q /\ rec h2 = rec h /\ isMounted h2 = isMounted h) as (E1 & E2 & E3)
      by (subst h2; destruct (u_onend u); done).
    destruct (IH h2) as (es & h' & Hr & Hq & Er & Em); [rewrite E1; simpl in En; lia|].
    exists (EvSynthEnd 0 :: es), h'. cbn [run]. rewrite Hs. split_and!; congruence.
Qed.

End Live.

(** ** Liveness on the Web Speech instance *)

Section WebSpeechLive.
Local Abbreviation home := (@home rec_status).

(** From an idle recogniser on a quiet mounted page: the earliest pending
    timer starts a session and its [start] event opens the microphone. *)
Lemma from_idle (vs : list voice) (h : home) :
  reachable vs h -> isMounted h = true -> isSpeaking h = false ->
  queue (h_synth h) = [] -> rec h = RIdle ->
  exists h', run h [EvTimer; EvRecStart] = Some h' /\ rec h' = RRunning /\
    isMounted h' = true /\ isSpeaking h' = false.
Proof.
  intros Hr Hm Hs Hq Er.
  pose proof (reachable_inv vs h Hr) as Hi. pose proof (reachable_live_inv vs h Hr) as Hli.
  assert (cap_live (rec h) = false) as Hl by (rewrite Er; reflexivity).
  destruct (inv_idle h Hi Hm Hl) as [Hn Hf].
  destruct (list_min_nonempty (timers h)) as [d Ed].
  { apply (li_restart h Hli Hm Hl Hs). unfold speak_queued. by rewrite Hq. }
  simpl. rewrite Ed. unfold startRecognition. simpl. rewrite Hs, Hn, Hf, Er. simpl.
  eexists. split_and!; [reflexivity|reflexivity|exact Hm|exact Hs].
Qed.

(** A session that can end: its [end] arms a restart on a quiet page. *)
Lemma from_end (vs : list voice) (h : home) :
  reachable vs h -> isMounted h = true -> isSpeaking h = false -> queue (h_synth h) = [] ->
  ws_ev_end (rec h) = Some RIdle ->
  exists h', run h [EvRecEnd; EvTimer; EvRecStart] = Some h' /\ rec h' = RRunning /\
    isMounted h' = true /\ isSpeaking h' = false.
Proof.
  intros Hr Hm Hs Hq Ee.
  assert (step h EvRecEnd = Some (onend (set_rec RIdle h))) as Hs1 by (simpl; by rewrite Ee).
  assert (isMounted (onend (set_rec RIdle h)) = true /\ isSpeaking (onend (set_rec RIdle h)) = false)
    as [Hm1 Hs1'] by (unfold onend; simpl; rewrite Hm, Hs; done).
  destruct (from_idle vs (onend (set_rec RIdle h))) as (h' & Hr' & H');
    [eapply reach_step; eassumption|exact Hm1|exact Hs1'|unfold onend; simpl; by rewrite Hm, Hs|
     unfold onend; simpl; by rewrite Hm, Hs|].
  exists h'. cbn [run]. rewrite Hs1. split; [exact Hr'|exact H'].
Qed.

(** A quiet mounted page: the queue drained, nothing speaking. *)
Lemma from_quiet (vs : list voice) (h : home) :
  reachable vs h -> isMounted h = true -> isSpeaking h = false -> queue (h_synth h) = [] ->
  exists es h', run h es = Some h' /\ rec h' = RRunning /\
    isMounted h' = true /\ isSpeaking h' = false.
Proof.
  intros Hr Hm Hs Hq. destruct (rec h) eqn:Er.
  - exists [EvTimer; EvRecStart]. exact (from_idle vs h Hr Hm Hs Hq Er).
  - exists [EvRecStart]. simpl. rewrite Er. eexists. split_and!; done.
  - by exists [], h.
  - exists [EvRecEnd; EvTimer; EvRecStart]. apply (from_end vs h Hr Hm Hs Hq). by rewrite Er.
  - exists [EvRecEnd; EvTimer; EvRecStart]. apply (from_end vs h Hr Hm Hs Hq). by rewrite Er.
Qed.

(** ** Theorem *)

(** C24: the loop heals itself until teardown: from every reachable state
    of the mounted page, whatever was spoken, heard or left pending, some
    schedule of the environment's events (the queued utterances end, the
    recogniser's pending [end], the earliest timer, the recogniser's
    [start]) brings the page back to capturing with nothing speaking. *)
Theorem capture_recovers (vs : list voice) (h : home) :
  reachable vs h -> isMounted h = true ->
  exists es h', run h es = Some h' /\ rec h' = RRunning /\
    isMounted h' = true /\ isSpeaking h' = false.
Proof.
  intros Hr Hm. destruct (drain h) as (es1 & h1 & Hr1 & Hq & _ & Em).
  pose proof (run_reachable vs es1 h h1 Hr Hr1) as R1.
  assert (isSpeaking h1 = false) as Hs1.
  { destruct (isSpeaking h1) eqn:E; [|done].
    pose proof (li_speaking h1 (reachable_live_inv vs h1 R1) E) as Hq'.
    unfold speak_queued in Hq'. by rewrite Hq in Hq'. }
  destruct (from_quiet vs h1 R1 ltac:(congruence) Hs1 Hq) as (es2 & h' & Hr2 & H').
  exists (es1 ++ es2), h'. split; [exact (run_seq _ _ _ _ _ Hr1 Hr2)|exact H'].
Qed.

End WebSpeechLive.
