(* ===== verification/HomeBounds.v ===== *)
(** * Bounds on the pending restarts

    Every pending timer runs [startRecognition], which never arms a timer:
    the timer callbacks alone terminate, each firing removing exactly one
    deadline. New deadlines come only from the recogniser's [error] and
    [end] handlers and from the end of a spoken response. Under a
    recogniser that fails at once on every start (a [network] or
    [not-allowed] error), each pending restart yields one start, whose
    [error] and [end] handlers both arm a restart 1000 ms later: the
    pending restarts double every second, where the spec allows one. *)

From S2P Require Import Prelude JsString UserContext Dispatch Speech Recognition Home HomeRun HomeInv.

(** The environment's schedule under a persistent error [c]: the earliest
    timer fires, the start fails with [c], the session ends. *)
Definition fail_cycle (c : string) : list event := [EvTimer; EvRecError c; EvRecEnd].

(** Every deadline pending at one instant fails in turn, then a second
    passes. *)
Definition fail_round (c : string) (n : nat) : list event :=
  List.concat (repeat (fail_cycle c) n) ++ [EvTick 1000].

Fixpoint fail_rounds (c : string) (r n : nat) : list event :=
  match r with
  | 0 => []
  | S r' => fail_round c n ++ fail_rounds c r' (2 * n)
  end.

Section Drain.
Context {S : Type} `{!Capture S}.
Local Abbreviation home := (@home S).

(** ** Lemmas *)

Lemma length_remove_first (d : nat) (l : list nat) :
  In d l -> length (remove_first d l) = length l - 1.
Proof.
  induction l as [|x l IH]; simpl; [done|]. intros Hd.
  destruct (Nat.eqb_spec x d) as [->|Hne]; [lia|].
  destruct Hd as [->|Hd]; [done|]. simpl. rewrite IH by exact Hd. destruct l; simpl in *; [done|lia].
Qed.

(** The timer event removes one deadline and arms none. *)
Lemma step_timer_length (h : home) (d : nat) :
  list_min (timers h) = Some d ->
  exists h', step h EvTimer = Some h' /\ length (timers h') = length (timers h) - 1.
Proof.
  intros Ed. eexists. simpl. rewrite Ed. split; [reflexivity|].
  rewrite startRecognition_frame. simpl. apply length_remove_first, list_min_in, Ed.
Qed.

(** ** Theorem *)

(** C25: the restart callbacks terminate: from any state, the timer event
    fires exactly as many times as there are pending deadlines, and then
    no timer is left, since [startRecognition] never arms one. *)
Theorem timers_drain (h : home) :
  exists h', run h (repeat EvTimer (length (timers h))) = Some h' /\ timers h' = [].
Proof.
  remember (length (timers h)) as n eqn:En. revert h En.
  induction n as [|n IH]; intros h En.
  - exists h. split; [done|]. by destruct (timers h).
  - destruct (list_min_nonempty (timers h)) as [d Ed]; [by destruct (timers h)|].
    destruct (step_timer_length h d Ed) as (h1 & Hs & Hl).
    destruct (IH h1) as (h' & Hr & Ht); [lia|].
    exists h'. cbn [repeat run]. rewrite Hs. by split.
Qed.

End Drain.

(** ** The restart storm on the Web Speech instance *)

Section Storm.
Local Abbreviation home := (@home rec_status).

(** A mounted page whose recogniser is idle and that is not speaking. *)
Definition storm_ready (h : home) : Prop :=
  rec h = RIdle /\ isMounted h = true /\ isSpeaking h = false /\
  isRecognizing h = false /\ recRef h = true.

Lemma list_min_head (t : nat) (l : list nat) :
  Forall (fun x => t <= x) l -> list_min (t :: l) = Some t.
Proof.
  intros Hl. simpl. destruct (list_min l) as [m|] eqn:E; [|done].
  f_equal. apply Nat.min_l. apply list_min_in in E.
  rewrite Forall_forall in Hl. apply Hl. exact E.
Qed.

(** One failed start: the earliest deadline fires, [start()] is accepted,
    the [error] and the [end] that follow each arm a restart. *)
Lemma fail_cycle_run (c : string) (h : home) (l : list nat) :
  c <> "aborted" -> storm_ready h -> timers h = now h :: l -> Forall (fun x => now h <= x) l ->
  exists h', run h (fail_cycle c) = Some h' /\ storm_ready h' /\ now h' = now h /\
    timers h' = l ++ [now h + 1000; now h + 1000].
Proof.
  intros Hc (Er & Hm & Hs & Hr & Hf) Ht Hl.
  apply String.eqb_neq in Hc.
  unfold fail_cycle. cbn [run step]. rewrite Ht, (list_min_head _ _ Hl).
  cbn [remove_first]. rewrite Nat.eqb_refl.
  unfold startRecognition. simpl. rewrite Hs, Hr, Hf, Er. simpl.
  unfold onerror, onend. simpl. rewrite Hc, Hm, Hs. simpl.
  eexists. split; [reflexivity|]. unfold storm_ready. simpl.
  rewrite Hm, Hs. simpl. split_and!; try done. by rewrite <- app_assoc.
Qed.

Lemma fail_cycles (c : string) (n k : nat) (h : home) :
  c <> "aborted" -> storm_ready h ->
  timers h = replicate n (now h) ++ replicate k (now h + 1000) ->
  exists h', run h (List.concat (repeat (fail_cycle c) n)) = Some h' /\ storm_ready h' /\
    now h' = now h /\ timers h' = replicate (k + 2 * n) (now h + 1000).
Proof.
  revert k h. induction n as [|n IH]; intros k h Hc Hr Ht.
  - exists h. rewrite Nat.add_0_r. by split_and!.
  - destruct (fail_cycle_run c h (replicate n (now h) ++ replicate k (now h + 1000)))
      as (h1 & R1 & Hr1 & En1 & Ht1); [done|done|exact Ht|..].
    { apply Forall_app; split; apply Forall_replicate; lia. }
    destruct (IH (k + 2) h1) as (h' & R' & Hr' & En' & Ht'); [done|done|..].
    { rewrite Ht1, En1, <- app_assoc, replicate_add. reflexivity. }
    exists h'. split_and!; [|done|congruence|].
    + cbn [repeat List.concat]. exact (run_seq _ _ _ _ _ R1 R').
    + rewrite Ht', En1. f_equal. lia.
Qed.

(** One second of the storm doubles the pending restarts. *)
Lemma fail_round_run (c : string) (m : nat) (h : home) :
  c <> "aborted" -> storm_ready h -> timers h = replicate m (now h) ->
  exists h', run h (fail_round c m) = Some h' /\ storm_ready h' /\
    now h' = now h + 1000 /\ timers h' = replicate (2 * m) (now h').
Proof.
  intros Hc Hr Ht.
  destruct (fail_cycles c m 0 h) as (h1 & R1 & Hr1 & En1 & Ht1); [done|done|by rewrite app_nil_r|].
  assert (step h1 (EvTick 1000) = Some (set_now (now h + 1000) h1)) as Hs.
  { simpl. rewrite Ht1, En1. replace (forallb _ _) with true; [done|].
    symmetry. apply forallb_forall. intros x Hx. apply list_elem_of_In, elem_of_replicate_inv in Hx. apply Nat.leb_le. lia. }
  eexists. split_and!.
  - unfold fail_round. apply (run_seq _ _ _ _ _ R1). cbn [run]. rewrite Hs. reflexivity.
  - exact Hr1.
  - reflexivity.
  - simpl. rewrite Ht1. f_equal; lia.
Qed.

(** ** Theorem *)

(** C26: the pending restarts grow exponentially: on a mounted page that is
    not speaking, with [m] restarts due now and a recogniser that fails
    every start with an error other than ["aborted"], after [r] seconds of
    failures [m * 2^r] restarts are pending, all due at the same instant;
    the spec allows at most one. *)
Theorem restart_storm (c : string) (r m : nat) (h : home) :
  c <> "aborted" -> storm_ready h -> timers h = replicate m (now h) ->
  exists h', run h (fail_rounds c r m) = Some h' /\ storm_ready h' /\
    now h' = now h + 1000 * r /\ timers h' = replicate (m * 2 ^ r) (now h').
Proof.
  revert m h. induction r as [|r IH]; intros m h Hc Hr Ht.
  - exists h. rewrite Nat.mul_1_r, Nat.add_0_r. by split_and!.
  - destruct (fail_round_run c m h Hc Hr Ht) as (h1 & R1 & Hr1 & En1 & Ht1).
    destruct (IH (2 * m) h1 Hc Hr1 Ht1) as (h' & R' & Hr' & En' & Ht').
    exists h'. split_and!; [exact (run_seq _ _ _ _ _ R1 R')|exact Hr'|lia|].
    rewrite Ht'. f_equal. rewrite Nat.pow_succ_r'. lia.
Qed.

End Storm.
