(* ===== verification/HomeStreams.v ===== *)
(** * What the page sends and opens, as a function of the events

    The spec describes the coordinator's outputs without its state: one
    assistant call per final transcript that contains the wake word, with
    the full transcript (section 8), and one window per well-formed reply,
    at the target of the intent table (section 4.4), unless the popup is
    blocked. [heard] and [dispatched] are these two specifications, over a
    list of events; the theorem shows that on a mounted page every run of
    the code produces exactly these outputs, in order, whatever its state:
    neither the speaking flag, nor the recogniser's state, nor the
    outstanding requests change what is sent or opened. *)

From S2P Require Import Prelude JsString UserContext Dispatch Speech Recognition Home HomeRun HomeInv.

(** The transcripts the spec sends for the events [es], with wake word
    [wake]. *)
Fixpoint heard (wake : string) (es : list event) : list string :=
  match es with
  | [] => []
  | EvRecResult res :: es' =>
      match last_transcript res with
      | Some raw => if wake_match (trim raw) wake then trim raw :: heard wake es' else heard wake es'
      | None => heard wake es'
      end
  | _ :: es' => heard wake es'
  end.

(** The window the spec opens for one reply: the table's target for a
    reply with a type, when the popup is allowed. *)
Definition reply_target (data : option gemini_data) (popup_ok : bool) : list string :=
  match data with
  | Some d =>
      match reply_type (Some d) with
      | Some t =>
          if popup_ok then option_list (intent_target (intent_of_type t) (js_str (g_userInput d)))
          else []
      | None => []
      end
  | None => []
  end.

Fixpoint dispatched (es : list event) : list string :=
  match es with
  | [] => []
  | EvReply _ data p :: es' => reply_target data p ++ dispatched es'
  | _ :: es' => dispatched es'
  end.

Section Streams.
Context {S : Type} `{!Capture S}.
Local Abbreviation home := (@home S).

(** ** Lemmas *)

Lemma open_window_target (p : bool) (t : string) (u : option string) :
  open_window p (command_url t u) =
  match intent_target (intent_of_type t) (js_str u) with
  | Some url => if p then NavOpened url else NavBlocked
  | None => NavNone
  end.
Proof.
  rewrite command_url_cases. destruct (intent_of_type t), p; simpl;
    unfold google_search, youtube_search; rewrite ?open_window_app; reflexivity.
Qed.

Lemma on_reply_opened (data : option gemini_data) (p : bool) (h : home) :
  opened (on_reply data p h) = opened h ++ reply_target data p /\
  requests (on_reply data p h) = requests h.
Proof.
  unfold on_reply, handleCommand, reply_target. destruct data as [d|]; [|by rewrite app_nil_r].
  destruct (reply_type (Some d)) as [t|]; [|by rewrite app_nil_r].
  rewrite open_window_target.
  destruct (intent_target _ _), p; simpl; rewrite ?app_nil_r; done.
Qed.

Lemma onresult_requests (res : list (list string)) (u : user) (h : home) :
  h_user h = Some u ->
  requests (onresult res h) = requests h ++ map gemini_request (heard (assistantName u) [EvRecResult res]) /\
  opened (onresult res h) = opened h.
Proof.
  intros Hu. unfold onresult. simpl. destruct (last_transcript res) as [raw|]; [|by rewrite app_nil_r].
  rewrite Hu. destruct (wake_match _ _); simpl; rewrite ?app_nil_r; done.
Qed.

Lemma heard_cons (w : string) (e : event) (es : list event) :
  heard w (e :: es) = heard w [e] ++ heard w es.
Proof.
  destruct e; try reflexivity. simpl.
  destruct (last_transcript _); [destruct (wake_match _ _)|]; reflexivity.
Qed.

Lemma dispatched_cons (e : event) (es : list event) :
  dispatched (e :: es) = dispatched [e] ++ dispatched es.
Proof. destruct e; simpl; rewrite ?app_nil_r; reflexivity. Qed.

(** A handler that neither sends nor opens. *)
Ltac frame_out := simpl; rewrite ?app_nil_r; split; reflexivity.

(** One step of a mounted page adds the outputs of its event. *)
Lemma step_outputs (h h' : home) (u : user) (e : event) :
  recRef h = true -> h_user h = Some u -> step h e = Some h' ->
  requests h' = requests h ++ map gemini_request (heard (assistantName u) [e]) /\
  opened h' = opened h ++ dispatched [e] /\ recRef h' = true /\ h_user h' = Some u.
Proof.
  intros Hf Hu Hs.
  assert (forall v, e <> EvMount v) as Hne by (intros v ->; simpl in Hs; by rewrite Hf in Hs).
  destruct (step_keeps_profile h h' e Hs Hne) as [Eu Ef].
  rewrite Eu, Ef. cut (requests h' = requests h ++ map gemini_request (heard (assistantName u) [e]) /\
                       opened h' = opened h ++ dispatched [e]); [intros [A B]; by split_and!|].
  destruct e as [v| |d| | |res|code| |i data p|i|b]; simpl in Hs; [by destruct (Hne v)|..].
  - destruct (isMounted h); [|done]. injection Hs as <-. frame_out.
  - destruct (forallb _ _); [|done]. injection Hs as <-. frame_out.
  - destruct (list_min _); [|done]. injection Hs as <-. rewrite startRecognition_frame. frame_out.
  - destruct (cap_ev_start _); [|done]. injection Hs as <-. frame_out.
  - destruct (cap_ev_result _); [|done]. injection Hs as <-.
    destruct (onresult_requests res u h Hu) as [Rq Op]. rewrite Op. simpl. by rewrite app_nil_r.
  - destruct (cap_ev_error _); [|done]. injection Hs as <-. unfold onerror. cbv zeta.
    case_if; frame_out.
  - destruct (cap_ev_end _); [|done]. injection Hs as <-. unfold onend. cbv zeta.
    case_if; frame_out.
  - destruct (pending h !! i); [|done]. injection Hs as <-.
    destruct (on_reply_opened data p (set_pending (delete i (pending h)) h)) as [Ho Hr].
    rewrite Ho, Hr. simpl. by rewrite !app_nil_r.
  - destruct (synth_end _ _) as [[w sy]|]; [|done]. injection Hs as <-.
    destruct (u_onend w); frame_out.
  - destruct (isMounted h); [|done]. injection Hs as <-. frame_out.
Qed.

(** ** Theorem *)

(** C27: the code's outputs refine the spec's: on a mounted page with wake
    word [assistantName u], any run of events sends exactly one request per
    final transcript of [es] that contains the wake word, carrying that
    whole trimmed transcript, and opens exactly the intent table's targets
    of the well-formed replies whose popup was allowed, in the order of the
    events. *)
Theorem outputs_refine (h h' : home) (u : user) (es : list event) :
  recRef h = true -> h_user h = Some u -> run h es = Some h' ->
  requests h' = requests h ++ map gemini_request (heard (assistantName u) es) /\
  opened h' = opened h ++ dispatched es.
Proof.
  revert h. induction es as [|e es IH]; intros h Hf Hu Hr; simpl in Hr.
  - injection Hr as <-. by rewrite !app_nil_r.
  - destruct (step h e) as [h1|] eqn:Hs; [|done].
    destruct (step_outputs h h1 u e Hf Hu Hs) as (Rq & Op & Hf1 & Hu1).
    destruct (IH h1 Hf1 Hu1 Hr) as [Rq' Op'].
    rewrite Rq', Op', Rq, Op, (heard_cons _ e es), (dispatched_cons e es), map_app, <- !app_assoc.
    done.
Qed.

End Streams.
