(* ===== verification/Page.v ===== *)
(** * The page: the session provider, Home and its menu together

    [UserContext] fetches the profile once when it mounts (line 43 of
    [UserContext.jsx]); Home is rendered by the router, runs its mount
    effect after its first render succeeds, and re-renders whenever its own
    state or the provider's changes; the menu's buttons log out or
    navigate. A render that throws (line 161 with no profile) is uncaught:
    React unmounts the tree, so Home's cleanup runs and nothing renders
    again. Which route shows Home is the router's business (the routes are
    not in the repository's sources): the model lets the environment show
    Home once, with [PShowHome], while no navigation happened, and a
    navigation unmounts Home. In [handleLogOut], [setUserData(null)] and
    [navigate("/signin")] run in one continuation and React batches them:
    on success Home is unmounted without rendering the empty profile.
    The browser is a section variable: whether [window] has either
    recognition constructor decides whether Home's effect runs or throws
    at line 83, after the first render, which also tears the tree down.

    [page_step] is the step of the whole page; [page_reachable] its
    closure. The theorems show that Home's part of every reachable page is
    a reachable state of Home's loop (so every theorem of [HomeInv] holds
    on the page), that Home only mounts with a profile, and what logout
    does to a page that shows Home. *)

From S2P Require Import Prelude JsString UserContext Dispatch Speech Recognition Home Render HomeRun HomeInv.

(** What [window] offers: the standard constructor and the prefixed one. *)
Record browser := mkBrowser {
  has_SpeechRecognition : bool;
  has_webkitSpeechRecognition : bool
}.

(** Line 82: [window.SpeechRecognition || window.webkitSpeechRecognition]
    is a constructor; otherwise [new SpeechRecognition()] (line 83) throws
    a [TypeError]. *)
Definition recognition_available (br : browser) : bool :=
  has_SpeechRecognition br || has_webkitSpeechRecognition br.

Section PageModel.
Context {St : Type} `{!Capture St}.
Context (br : browser).
Local Abbreviation home := (@home St).

Record page := mkPage {
  pctx : ctx;              (** the provider's state *)
  phome : home;            (** Home's state *)
  routes : list string;    (** [navigate] calls, in order *)
  fetching : bool;         (** [handleCurrentUser]'s request has not settled *)
  logouts : nat;           (** [handleLogOut] requests not settled *)
  sent : list request;     (** requests of the provider and of logout, in order *)
  crashed : bool           (** a render threw and React unmounted the tree *)
}.

Inductive page_event :=
| PUserFetched (r : http_result (option user))  (** [handleCurrentUser]'s GET settles *)
| PShowHome                                     (** the router renders Home *)
| PHome (e : event)                             (** an event of Home's loop *)
| PClick (c : control)                          (** a click on the menu *)
| PLogOutDone (r : http_result unit).           (** a logout GET settles *)

Definition set_pctx (c : ctx) (p : page) : page :=
  mkPage c (phome p) (routes p) (fetching p) (logouts p) (sent p) (crashed p).
Definition set_phome (h : home) (p : page) : page :=
  mkPage (pctx p) h (routes p) (fetching p) (logouts p) (sent p) (crashed p).

(** Lines 10 and 42-44 of the provider: the fetch is sent when it mounts. *)
Definition init_page (vs : list voice) : page :=
  mkPage init_ctx (init_home vs) [] true 0 [current_user_request] false.

(** Home is on screen: its effect ran, its cleanup did not, and the tree
    did not crash. *)
Definition shown (p : page) : bool :=
  recRef (phome p) && isMounted (phome p) && negb (crashed p).

(** An uncaught render error: React unmounts the tree, running Home's
    cleanup. *)
Definition crash (p : page) : page :=
  mkPage (pctx p) (if isMounted (phome p) then unmount (phome p) else phome p)
    (routes p) (fetching p) (logouts p) (sent p) true.

(** React re-renders Home after a state change while it is on screen. *)
Definition rerender (p : page) : page :=
  if shown p then
    match view_of (userData (pctx p)) (phome p) with
    | Some _ => p
    | None => crash p
    end
  else p.

(** [navigate(r)]: the route changes and Home, if mounted, is unmounted. *)
Definition navigate (r : string) (p : page) : page :=
  mkPage (pctx p) (if isMounted (phome p) then unmount (phome p) else phome p)
    (routes p ++ [r]) (fetching p) (logouts p) (sent p) (crashed p).

Definition page_step (p : page) (ev : page_event) : option page :=
  match ev with
  | PUserFetched r =>
      if fetching p then
        Some (rerender (mkPage (handleCurrentUser r (pctx p)) (phome p) (routes p) false
                          (logouts p) (sent p) (crashed p)))
      else None
  | PShowHome =>
      if recRef (phome p) || crashed p || negb (bool_decide (routes p = [])) then None
      else match view_of (userData (pctx p)) (phome p) with
           | Some _ =>
               if recognition_available br
               then Some (set_phome (mount (userData (pctx p)) (phome p)) p)
               else Some (mkPage (pctx p) (phome p) (routes p) (fetching p) (logouts p)
                            (sent p) true)
           | None => Some (mkPage (pctx p) (phome p) (routes p) (fetching p) (logouts p)
                             (sent p) true)
           end
  | PHome e =>
      match e with
      | EvMount _ | EvMenu _ => None
      | _ => match step (phome p) e with
             | Some h => Some (rerender (set_phome h p))
             | None => None
             end
      end
  | PClick c =>
      if shown p then
        match onClick c with
        | ActSetHam b => Some (rerender (set_phome (set_ham b (phome p)) p))
        | ActLogOut => Some (mkPage (pctx p) (phome p) (routes p) (fetching p)
                               (S (logouts p)) (sent p ++ [logout_request]) (crashed p))
        | ActNavigate r => Some (navigate r p)
        end
      else None
  | PLogOutDone r =>
      match logouts p with
      | 0 => None
      | S n =>
          let (c, nav) := handleLogOut r (pctx p) in
          let p := mkPage c (phome p) (routes p) (fetching p) n (sent p) (crashed p) in
          Some (match nav with
                | Some route => navigate route p
                | None => rerender p
                end)
      end
  end.

Inductive page_reachable (vs : list voice) : page -> Prop :=
| preach_init : page_reachable vs (init_page vs)
| preach_step p ev p' : page_reachable vs p -> page_step p ev = Some p' -> page_reachable vs p'.

Fixpoint page_run (p : page) (evs : list page_event) : option page :=
  match evs with
  | [] => Some p
  | ev :: evs' => match page_step p ev with
                  | Some p' => page_run p' evs'
                  | None => None
                  end
  end.

(** ** Lemmas *)

(** Home's cleanup, when it runs, is the loop's [EvUnmount]. *)
Lemma unmount_run (h : home) :
  run h (if isMounted h then [EvUnmount] else []) =
  Some (if isMounted h then unmount h else h).
Proof. destruct (isMounted h) eqn:E; simpl; [by rewrite E|done]. Qed.

Lemma rerender_run (p : page) :
  exists es, run (phome p) es = Some (phome (rerender p)).
Proof.
  unfold rerender. destruct (shown p); [|by exists []].
  destruct (view_of _ _); [by exists []|]. eexists. apply unmount_run.
Qed.

Lemma navigate_run (r : string) (p : page) :
  exists es, run (phome p) es = Some (phome (navigate r p)).
Proof. eexists. apply unmount_run. Qed.

Lemma shown_spec (p : page) :
  shown p = true -> recRef (phome p) = true /\ isMounted (phome p) = true /\ crashed p = false.
Proof. unfold shown. by destruct (recRef _), (isMounted _), (crashed p). Qed.

Lemma shown_mounted (p : page) : shown p = true -> isMounted (phome p) = true.
Proof. intros H. apply (shown_spec p H). Qed.

Ltac page_run_tac :=
  match goal with
  | |- exists es, run _ es = Some (phome (rerender ?q)) =>
      let es := fresh "es" in let Hr := fresh "Hr" in
      destruct (rerender_run q) as [es Hr]; exists es; exact Hr
  | |- exists es, run _ es = Some (phome (navigate ?r ?q)) =>
      let es := fresh "es" in let Hr := fresh "Hr" in
      destruct (navigate_run r q) as [es Hr]; exists es; exact Hr
  end.

(** Each page step moves Home by a run of its own loop. *)
Lemma page_step_run (p p' : page) (ev : page_event) :
  page_step p ev = Some p' -> exists es, run (phome p) es = Some (phome p').
Proof.
  intros Hs. destruct ev as [r| |e|c|r]; simpl in Hs.
  - destruct (fetching p); [|done]. injection Hs as <-. page_run_tac.
  - destruct (recRef (phome p) || _ || _) eqn:E; [done|].
    apply orb_false_iff in E as [E _]. apply orb_false_iff in E as [E _].
    destruct (view_of _ _); [try destruct (recognition_available br)|]; injection Hs as <-;
      first [by exists [] | exists [EvMount (userData (pctx p))]; simpl; by rewrite E].
  - destruct (step (phome p) e) as [h|] eqn:E; [|by destruct e].
    assert (Some (rerender (set_phome h p)) = Some p') as Hs' by (destruct e; done).
    injection Hs' as <-. destruct (rerender_run (set_phome h p)) as [es Hr].
    exists (e :: es). simpl. by rewrite E.
  - destruct (shown p) eqn:Esh; [|done].
    destruct (onClick c) as [b| |route]; injection Hs as <-.
    + destruct (rerender_run (set_phome (set_ham b (phome p)) p)) as [es Hr].
      exists (EvMenu b :: es). simpl. by rewrite (shown_mounted p Esh).
    + by exists [].
    + page_run_tac.
  - destruct (logouts p); [done|]. destruct (handleLogOut r (pctx p)) as [c [route|]].
    + injection Hs as <-. page_run_tac.
    + injection Hs as <-. page_run_tac.
Qed.

Lemma page_reachable_home (vs : list voice) (p : page) :
  page_reachable vs p -> reachable vs (phome p).
Proof.
  induction 1 as [|p ev p' _ IH Hs]; [constructor|].
  destruct (page_step_run p p' ev Hs) as [es Hr]. eapply run_reachable; eassumption.
Qed.

Lemma page_run_reachable (vs : list voice) (evs : list page_event) (p0 p : page) :
  page_reachable vs p0 -> page_run p0 evs = Some p -> page_reachable vs p.
Proof.
  revert p0. induction evs as [|ev evs IH]; intros p0 Hr Hrun; simpl in Hrun.
  - by injection Hrun as <-.
  - destruct (page_step p0 ev) as [p1|] eqn:Hs; [|done]. eapply IH; [|exact Hrun].
    eapply preach_step; eassumption.
Qed.

(** Once Home's effect has run, it captured a profile. *)
Definition profile_ok (h : home) : Prop := recRef h = true -> h_user h <> None.

Lemma profile_ok_unmount_if (h : home) :
  profile_ok h -> profile_ok (if isMounted h then unmount h else h).
Proof. by destruct (isMounted h). Qed.

Lemma profile_ok_rerender (p : page) :
  profile_ok (phome p) -> profile_ok (phome (rerender p)).
Proof.
  intros H. unfold rerender. destruct (shown p); [|exact H].
  destruct (view_of _ _); [exact H|apply profile_ok_unmount_if, H].
Qed.

Lemma profile_ok_step (h h' : home) (e : event) :
  profile_ok h -> step h e = Some h' -> (forall u, e <> EvMount u) -> profile_ok h'.
Proof.
  intros H Hs Hne. destruct (step_keeps_profile h h' e Hs Hne) as [Eu Er].
  unfold profile_ok. rewrite Eu, Er. exact H.
Qed.

(** The first render reads [userData.history]: Home mounts only when it
    renders, that is with a profile. *)
Lemma page_step_profile (p p' : page) (ev : page_event) :
  profile_ok (phome p) -> page_step p ev = Some p' -> profile_ok (phome p').
Proof.
  intros H Hs. destruct ev as [r| |e|c|r]; simpl in Hs.
  - destruct (fetching p); [|done]. injection Hs as <-. by apply profile_ok_rerender.
  - destruct (recRef (phome p) || _ || _); [done|].
    destruct (view_of _ _) eqn:Ev; [try destruct (recognition_available br)|];
      injection Hs as <-;
      first [exact H | unfold view_of, render in Ev; simpl; intros _; by destruct (userData (pctx p))].
  - destruct (step (phome p) e) as [h|] eqn:E; [|by destruct e].
    assert (Some (rerender (set_phome h p)) = Some p' /\ forall u, e <> EvMount u) as [Hs' Hne]
      by (destruct e; done).
    injection Hs' as <-. apply profile_ok_rerender. exact (profile_ok_step _ _ _ H E Hne).
  - destruct (shown p); [|done].
    destruct (onClick c); injection Hs as <-.
    + apply profile_ok_rerender, H.
    + exact H.
    + apply profile_ok_unmount_if, H.
  - destruct (logouts p); [done|]. destruct (handleLogOut r (pctx p)) as [c [route|]];
      injection Hs as <-; [apply profile_ok_unmount_if, H|apply profile_ok_rerender, H].
Qed.

Lemma page_reachable_profile (vs : list voice) (p : page) :
  page_reachable vs p -> profile_ok (phome p).
Proof.
  induction 1 as [|p ev p' _ IH Hs]; [done|]. eapply page_step_profile; eassumption.
Qed.

Lemma recRef_unmount_if (h : home) :
  recRef (if isMounted h then unmount h else h) = recRef h.
Proof. by destruct (isMounted h). Qed.

Lemma recRef_rerender (q : page) : recRef (phome (rerender q)) = recRef (phome q).
Proof.
  unfold rerender. destruct (shown q); [|done].
  destruct (view_of _ _); [done|apply recRef_unmount_if].
Qed.

(** Only showing Home on a browser with a recogniser runs its effect. *)
Lemma page_step_mounts (p p' : page) (ev : page_event) :
  page_step p ev = Some p' -> recRef (phome p') = true ->
  recRef (phome p) = true \/ recognition_available br = true.
Proof.
  intros Hs Hf. destruct (recRef (phome p)) eqn:E; [by left|right].
  destruct ev as [r| |e|c|r]; cbn [page_step] in Hs.
  - destruct (fetching p); [|done]. injection Hs as <-. rewrite recRef_rerender in Hf.
    simpl in Hf. congruence.
  - rewrite E in Hs. destruct (false || crashed p || negb (bool_decide (routes p = []))); [done|].
    destruct (view_of _ _); [destruct (recognition_available br) eqn:Eb|]; [done|..];
      injection Hs as <-; simpl in Hf; congruence.
  - destruct (step (phome p) e) as [h|] eqn:Es; [|by destruct e].
    assert (Some (rerender (set_phome h p)) = Some p' /\ forall u, e <> EvMount u) as [Hs' Hne]
      by (destruct e; done).
    injection Hs' as <-. rewrite recRef_rerender in Hf. simpl in Hf.
    destruct (step_keeps_profile _ _ _ Es Hne) as [_ Er]. congruence.
  - unfold shown in Hs. by rewrite E in Hs.
  - destruct (logouts p); [done|]. destruct (handleLogOut r (pctx p)) as [c [route|]];
      injection Hs as <-; [unfold navigate in Hf; simpl in Hf; rewrite recRef_unmount_if in Hf
                          |rewrite recRef_rerender in Hf; simpl in Hf]; congruence.
Qed.

(** ** Theorems *)

(** The page refines Home's loop: in every reachable state of the
    whole page (provider, Home, menu, logout and navigation), Home's state
    is a reachable state of its own event loop, so every invariant proved
    of the loop holds on the page. *)
Theorem page_refines_home (vs : list voice) (p : page) :
  page_reachable vs p -> reachable vs (phome p).
Proof. apply page_reachable_home. Qed.

(** C22: capture never starts without a profile: whenever the recogniser
    is live, Home's effect ran and captured a profile, because the first
    render dereferences [userData] (line 161) and throws before any effect
    runs when it is [null]. *)
Theorem page_capture_needs_profile (vs : list voice) (p : page) :
  page_reachable vs p -> cap_live (rec (phome p)) = true ->
  recRef (phome p) = true /\ exists u, h_user (phome p) = Some u.
Proof.
  intros Hp Hl.
  pose proof (live_mounted _ (reachable_inv _ _ (page_reachable_home vs p Hp)) Hl) as Hm.
  split; [exact Hm|]. destruct (h_user (phome p)) as [u|] eqn:E; [by exists u|].
  by destruct (page_reachable_profile vs p Hp Hm).
Qed.

(** C23: logging out from the page that shows Home: when the server
    answers, the profile is cleared, the page navigates to ["/signin"] and
    Home is unmounted; when the request fails, the profile is cleared and
    nothing navigates, so Home re-renders with [userData = null], the render
    throws and the tree is torn down. *)
Theorem logout_outcome (p : page) :
  shown p = true -> 0 < logouts p ->
  (exists p', page_step p (PLogOutDone (HttpOk tt)) = Some p' /\
     userData (pctx p') = None /\ routes p' = routes p ++ ["/signin"] /\
     crashed p' = false /\ isMounted (phome p') = false) /\
  (exists p', page_step p (PLogOutDone HttpErr) = Some p' /\
     userData (pctx p') = None /\ routes p' = routes p /\
     crashed p' = true /\ isMounted (phome p') = false).
Proof.
  intros Hsh Hl. destruct (shown_spec p Hsh) as (Hr & Hm & Hc). unfold page_step.
  destruct (logouts p) as [|n]; [lia|]. simpl.
  split; eexists; (split; [reflexivity|]); unfold navigate, rerender, crash, shown; simpl;
    rewrite ?Hr, ?Hm, ?Hc; simpl; rewrite ?Hm; done.
Qed.

(** C30: the page's start: the provider's fetch settles, then the router
    shows Home. With a profile and a browser that has a recogniser, Home
    renders, its effect runs with that profile, the greeting with its name
    is queued and the first start is armed 1000 ms later. With a profile
    but no recogniser, the render succeeds and the effect throws at line
    83, before the ref, the timer and the greeting, and the tree is torn
    down. Without a profile (the request failed or returned [null]), the
    first render throws before any effect. *)
Theorem page_startup (vs : list voice) (r : http_result (option user)) :
  exists p, page_run (init_page vs) [PUserFetched r; PShowHome] = Some p /\
  match r with
  | HttpOk (Some u) =>
      if recognition_available br then
        crashed p = false /\ shown p = true /\ h_user (phome p) = Some u /\
        queue (h_synth (phome p)) = [(greeting u, false)] /\ timers (phome p) = [1000]
      else
        crashed p = true /\ recRef (phome p) = false /\ timers (phome p) = [] /\
        queue (h_synth (phome p)) = []
  | _ =>
      crashed p = true /\ recRef (phome p) = false /\ timers (phome p) = [] /\
      queue (h_synth (phome p)) = []
  end.
Proof.
  destruct r as [[u|]|]; [|eexists; (split; [reflexivity|]); split_and!; reflexivity..].
  cbn. destruct (recognition_available br); eexists; (split; [reflexivity|]); split_and!; reflexivity.
Qed.

(** C18: on a browser with neither [SpeechRecognition] nor
    [webkitSpeechRecognition], nothing of the voice loop ever happens: in
    every reachable state of the page Home's effect has not run (it throws
    at line 83 before setting the ref), so the recogniser never starts, no
    restart is armed, the greeting (line 137, after the throw) is never
    queued and no request is sent. *)
Theorem page_no_recognition (vs : list voice) (p : page) :
  recognition_available br = false -> page_reachable vs p ->
  recRef (phome p) = false /\ cap_live (rec (phome p)) = false /\ timers (phome p) = [] /\
  queue (h_synth (phome p)) = [] /\ requests (phome p) = [].
Proof.
  intros Hb Hp.
  assert (recRef (phome p) = false) as Ef.
  { induction Hp as [|p ev p' Hp IH Hs]; [done|].
    destruct (recRef (phome p')) eqn:E; [|done].
    destruct (page_step_mounts p p' ev Hs E) as [H|H]; congruence. }
  pose proof (page_reachable_home vs p Hp) as Hr.
  destruct (inv_premount _ (reachable_inv _ _ Hr) Ef) as (Ec & _ & _ & _ & Eq).
  destruct (reachable_premount_quiet _ _ Hr Ef) as (Et & Es & _).
  split_and!; try assumption. rewrite Ec. apply cap_init_idle.
Qed.

End PageModel.
