(* ===== verification/HomeTraces.v ===== *)
(** * Runs of the Web Speech instance on concrete inputs

    The page is driven by explicit event lists from the component before
    mount ([start0]); each state is found by [run] and [vm_compute], and is
    [reachable] by [run_reachable]. The traces show the spec's scenario and
    the behaviours the spec forbids but the code allows; the witnesses
    apply the general theorems at these states. *)

From S2P Require Import Prelude JsString UserContext Dispatch Speech Recognition Home Render HomeRun HomeInv Modes HomeLive HomeBounds HomeStreams Page.

(** ** Concrete inputs for the Web Speech instance *)

Definition max_user : user := mkUser "Max" "Asha" "" (Some []).

Definition weather_reply : gemini_data :=
  mkGemini (Some "weather-show") (Some "weather") (Some "Here's the weather").

Definition start0 : home := init_home (S := rec_status) [].

(** Mount, let the first timer start the recogniser, hear the wake word. *)
Definition weather_events : list event :=
  [EvMount (Some max_user); EvTick 1000; EvTimer; EvRecStart;
   EvRecResult [["tell me the weather, Max"]]; EvRecEnd;
   EvReply 0 (Some weather_reply) true].

Example weather_run :
  match run start0 weather_events with
  | Some h => Some (requests h, opened h, isSpeaking h, aiText h, timers h)
  | None => None
  end =
  Some ([gemini_request "tell me the weather, Max"], ["https://www.google.com/search?q=weather"],
        true, "Here's the weather", [2000]).
Proof. vm_compute. reflexivity. Qed.

(** A state the Web Speech instance reaches from [start0] by [es]. *)
Definition reached (es : list event) (P : @home rec_status -> Prop) : Prop :=
  match run start0 es with
  | Some h => P h
  | None => False
  end.

Lemma reached_reachable (es : list event) (P : @home rec_status -> Prop) :
  reached es P -> exists h, reachable [] h /\ P h.
Proof.
  unfold reached. destruct (run start0 es) as [h|] eqn:E; [|done].
  intros HP. exists h. split; [|exact HP]. eapply run_reachable; [constructor|exact E].
Qed.

Definition weather_home : @home rec_status := default start0 (run start0 weather_events).

Lemma weather_home_reachable : reachable [] weather_home.
Proof. apply (run_reachable [] weather_events start0); [constructor|]. vm_compute. reflexivity. Qed.

(** ** Witnesses *)

Lemma reachable_recognizing_started_witness :
  isRecognizing weather_home = false /\
  (isRecognizing weather_home = true -> cap_started (rec weather_home) = true).
Proof.
  split; [vm_compute; reflexivity|].
  apply (reachable_recognizing_started [] weather_home weather_home_reachable).
Defined.

Lemma reachable_requests_wake_witness :
  Forall (fun r => exists t u, h_user weather_home = Some u /\ r = gemini_request t /\
                              wake_match t (assistantName u) = true) (requests weather_home).
Proof. apply (reachable_requests_wake [] weather_home weather_home_reachable). Defined.

(** ** Traces *)

(** C13: the code does not keep capture and playback apart: a wake word
    stops the recogniser, its [end] arms a restart 1000 ms later because
    nothing is being spoken yet, the restart starts a new session while the
    reply is awaited, and the reply is then spoken while the microphone is
    open. *)
Theorem speaking_while_capturing :
  exists h, reachable [] h /\ pending h = [] /\ isSpeaking h = true /\
    synth_busy (h_synth h) = true /\ cap_capturing (rec h) = true /\ isRecognizing h = true.
Proof.
  apply (reached_reachable
    [EvMount (Some max_user); EvTick 1000; EvTimer; EvRecStart;
     EvRecResult [["tell me the weather, Max"]]; EvRecEnd; EvTick 1000; EvTimer;
     EvRecStart; EvReply 0 (Some weather_reply) true]).
  vm_compute. split_and!; reflexivity.
Qed.

(** C14: teardown does not close the loop: after the cleanup ran while a
    reply was awaited, the reply is still spoken and its window opened,
    and the restart armed by the utterance's end starts the recogniser
    again on the unmounted page. *)
Theorem restart_after_unmount :
  exists h, reachable [] h /\ isMounted h = false /\ cap_live (rec h) = true /\
    opened h = ["https://www.google.com/search?q=weather"].
Proof.
  apply (reached_reachable
    [EvMount (Some max_user); EvTick 1000; EvTimer; EvRecStart;
     EvRecResult [["tell me the weather, Max"]]; EvUnmount; EvRecEnd;
     EvReply 0 (Some weather_reply) true; EvSynthEnd 1; EvTick 800; EvTimer]).
  vm_compute. split_and!; reflexivity.
Qed.

(** C15: the greeting and the first capture race: the greeting does not
    set the speaking flag, so the timer armed at mount starts the
    recogniser while the greeting is still queued. *)
Theorem greeting_race :
  exists h, reachable [] h /\ synth_busy (h_synth h) = true /\ isSpeaking h = false /\
    cap_capturing (rec h) = true.
Proof.
  apply (reached_reachable [EvMount (Some max_user); EvTick 1000; EvTimer]).
  vm_compute. split_and!; reflexivity.
Qed.

(** C19: the speaking flag trusts stale completions: two wake words in a
    row lead to two replies; the second [speak] interrupts the first, whose
    end event then clears [isSpeakingRef] while the second response is still
    playing, and the restart armed by that stale end starts capture over
    it. *)
Theorem stale_utterance_end :
  exists h, reachable [] h /\ isSpeaking h = false /\ response_playing (h_synth h) = true /\
    cap_capturing (rec h) = true.
Proof.
  apply (reached_reachable
    [EvMount (Some max_user); EvTick 1000; EvTimer; EvRecStart;
     EvRecResult [["Max, what is the weather"]]; EvRecEnd; EvTick 1000; EvTimer; EvRecStart;
     EvRecResult [["Max, open youtube"]]; EvRecEnd;
     EvReply 0 (Some weather_reply) true; EvReply 0 (Some weather_reply) true;
     EvSynthEnd 1; EvTick 800; EvTimer]).
  vm_compute. split_and!; reflexivity.
Qed.

(** ** Witnesses of the handler theorems *)

(** The page right after mount, with the wake word "Max". *)
Definition mounted_home : @home rec_status := mount (Some max_user) start0.

Lemma onresult_no_match_witness :
  onresult [["what time is it"]] mounted_home = mounted_home.
Proof. apply (onresult_no_match _ "what time is it" max_user); reflexivity. Defined.

Lemma onresult_match_witness :
  requests (onresult [["hey Max, open facebook"]] mounted_home) =
    [gemini_request "hey Max, open facebook"].
Proof.
  destruct (onresult_match [["hey Max, open facebook"]] "hey Max, open facebook" max_user
              mounted_home eq_refl eq_refl eq_refl) as [H _].
  exact H.
Defined.

Lemma startRecognition_guard_witness :
  isSpeaking mounted_home = false /\ cap_start (rec mounted_home) = Some RStarting.
Proof.
  destruct (startRecognition_guard mounted_home) as (Hs & _ & _ & _ & Hst); [discriminate|].
  split; [exact Hs|exact Hst].
Defined.

Lemma on_reply_invalid_witness : aiText (on_reply None true mounted_home) = apology.
Proof. destruct (on_reply_invalid None true mounted_home eq_refl) as [H _]. exact H. Defined.

Lemma on_reply_valid_witness :
  isSpeaking (on_reply (Some weather_reply) true mounted_home) = true.
Proof.
  destruct (on_reply_valid weather_reply "weather-show" true mounted_home eq_refl) as [H _].
  exact H.
Defined.

Lemma apology_hidden_witness :
  aiText (on_reply None true (onresult [["hey Max, open facebook"]] mounted_home)) = apology /\
  exists v, view_of (Some max_user) (on_reply None true (onresult [["hey Max, open facebook"]] mounted_home)) = Some v /\
    caption v = Some "hey Max, open facebook" /\ gifs v = [AiGif].
Proof.
  apply (apology_hidden [["hey Max, open facebook"]] "hey Max, open facebook" max_user
           mounted_home None true); try reflexivity. discriminate.
Defined.

(** ** The whole page *)

Definition page0 : @page rec_status := init_page [].

(** The profile arrives, the router shows Home, the first timer starts
    capture, and the user clicks "Log Out". *)
Definition page_events : list page_event :=
  [PUserFetched (HttpOk (Some max_user)); PShowHome; PHome (EvTick 1000); PHome EvTimer;
   PHome EvRecStart; PClick LogOutButton].

(** A browser with the prefixed constructor only, and one with none. *)
Definition webkit_browser : browser := mkBrowser false true.
Definition bare_browser : browser := mkBrowser false false.

Definition page1 : @page rec_status := default page0 (page_run webkit_browser page0 page_events).

Lemma page1_reachable : page_reachable webkit_browser [] page1.
Proof. apply (page_run_reachable webkit_browser [] page_events page0); [constructor|]. vm_compute. reflexivity. Defined.

Lemma page_refines_home_witness : reachable [] (phome page1).
Proof. apply (page_refines_home webkit_browser [] page1 page1_reachable). Defined.

Lemma page_capture_needs_profile_witness :
  cap_live (rec (phome page1)) = true /\ h_user (phome page1) = Some max_user.
Proof.
  assert (cap_live (rec (phome page1)) = true) as Hl by (vm_compute; reflexivity).
  split; [exact Hl|].
  destruct (page_capture_needs_profile webkit_browser [] page1 page1_reachable Hl) as [_ [u Hu]].
  rewrite Hu. vm_compute in Hu. symmetry. exact Hu.
Defined.

Lemma logout_outcome_witness :
  exists p', page_step webkit_browser page1 (PLogOutDone HttpErr) = Some p' /\ crashed p' = true.
Proof.
  destruct (logout_outcome webkit_browser page1) as [_ (p' & Hs & _ & _ & Hc & _)];
    [vm_compute; reflexivity|vm_compute; lia|].
  exists p'. split; [exact Hs|exact Hc].
Defined.

(** ** Witnesses of the liveness and bound theorems *)

Lemma capture_recovers_witness :
  exists es h', run weather_home es = Some h' /\ rec h' = RRunning /\
    isMounted h' = true /\ isSpeaking h' = false.
Proof. apply (capture_recovers [] weather_home weather_home_reachable). vm_compute. reflexivity. Defined.

(** One second after mount: the first restart is due. *)
Definition due_home : @home rec_status :=
  default start0 (run start0 [EvMount (Some max_user); EvTick 1000]).

Lemma restart_storm_witness :
  exists h', run due_home (fail_rounds "network" 2 1) = Some h' /\ storm_ready h' /\
    now h' = now due_home + 1000 * 2 /\ timers h' = replicate (1 * 2 ^ 2) (now h').
Proof.
  apply restart_storm; [discriminate|vm_compute; split_and!; reflexivity|vm_compute; reflexivity].
Defined.

(** The spec's scenario after mount, as a list of events. *)
Definition scenario_events : list event :=
  [EvTick 1000; EvTimer; EvRecStart; EvRecResult [["tell me the weather, Max"]]; EvRecEnd;
   EvReply 0 (Some weather_reply) true].

Definition scenario_home : @home rec_status :=
  default mounted_home (run mounted_home scenario_events).

Lemma outputs_refine_witness :
  requests scenario_home = requests mounted_home ++
    map gemini_request (heard (assistantName max_user) scenario_events) /\
  opened scenario_home = opened mounted_home ++ dispatched scenario_events.
Proof.
  apply (outputs_refine mounted_home scenario_home max_user scenario_events);
    vm_compute; reflexivity.
Defined.

Lemma reachable_timers_window_witness :
  Forall (fun t => now weather_home <= t <= now weather_home + 1000) (timers weather_home).
Proof. apply (reachable_timers_window [] weather_home weather_home_reachable). Defined.

Lemma reachable_one_response_witness : live_responses (h_synth weather_home) <= 1.
Proof. apply (reachable_one_response [] weather_home weather_home_reachable). Defined.

(** The profile arrives and the router shows Home on a browser with no
    recogniser. *)
Definition bare_page : @page rec_status :=
  default page0 (page_run bare_browser page0 [PUserFetched (HttpOk (Some max_user)); PShowHome]).

Lemma bare_page_reachable : page_reachable bare_browser [] bare_page.
Proof.
  apply (page_run_reachable bare_browser [] [PUserFetched (HttpOk (Some max_user)); PShowHome] page0);
    [constructor|]. vm_compute. reflexivity.
Defined.

Lemma page_no_recognition_witness :
  crashed bare_page = true /\ recRef (phome bare_page) = false /\ timers (phome bare_page) = [].
Proof.
  destruct (page_no_recognition bare_browser [] bare_page eq_refl bare_page_reachable)
    as (Hf & _ & Ht & _).
  split_and!; [vm_compute; reflexivity|exact Hf|exact Ht].
Defined.

(** The first restart fires one second after mount. *)
Definition started_home : @home rec_status := default due_home (step due_home EvTimer).

Lemma step_capture_start_witness :
  EvTimer = EvTimer /\ isSpeaking due_home = false /\ recRef due_home = true /\
  isSpeaking started_home = false.
Proof.
  apply (step_capture_start due_home started_home EvTimer); vm_compute; reflexivity.
Defined.

(** ** The races of the interaction modes *)

(** Mount, start the recogniser, hear the wake word: a reply is awaited
    and the recogniser is stopping. *)
Definition heard_events : list event :=
  [EvMount (Some max_user); EvTick 1000; EvTimer; EvRecStart;
   EvRecResult [["tell me the weather, Max"]]].

Lemma race_by_run (es : list event) (e : event) (m : mode) (k : kind) (o : option mode) :
  match run start0 es with
  | Some h => match step h e with
              | Some h' => mode_of h = Some m /\ ev_kind e = k /\ mode_of h' = o
              | None => False
              end
  | None => False
  end -> race_occurs [] m k o.
Proof.
  destruct (run start0 es) as [h|] eqn:Er; [|done].
  destruct (step h e) as [h'|] eqn:Es; [|done]. intros (Hm & Hk & Ho).
  exists h, h', e. split_and!; try assumption. eapply run_reachable; [constructor|exact Er].
Qed.

(** C31: the races of [step_refines_modes] all happen: each is a step of
    the code from a state reachable from the page before mount, so the
    list of the refinement theorem cannot be shortened. *)
Theorem races_occur (m : mode) (k : kind) (o : option mode) :
  race m k o -> race_occurs [] m k o.
Proof.
  destruct 1.
  - apply (race_by_run (heard_events ++ [EvRecEnd; EvTick 1000]) EvTimer).
    vm_compute. split_and!; reflexivity.
  - apply (race_by_run [EvMount (Some max_user); EvTick 1000; EvTimer; EvRecStart; EvUnmount]
                       (EvRecResult [["hello Max"]])).
    vm_compute. split_and!; reflexivity.
  - apply (race_by_run (heard_events ++ [EvReply 0 (Some weather_reply) true])
                       (EvRecResult [["hello Max"]])).
    vm_compute. split_and!; reflexivity.
  - apply (race_by_run heard_events (EvReply 0 None true)).
    vm_compute. split_and!; reflexivity.
  - apply (race_by_run (heard_events ++ [EvRecResult [["hello Max"]]])
                       (EvReply 0 (Some weather_reply) true)).
    vm_compute. split_and!; reflexivity.
Qed.

Lemma races_occur_witness :
  race AwaitingReply KTimer None /\ race_occurs [] AwaitingReply KTimer None.
Proof. split; [constructor|]. apply races_occur. constructor. Defined.

(** The recogniser is running and nothing else: the coordinator is
    Listening. *)
Definition listening_home : @home rec_status :=
  default start0 (run start0 [EvMount (Some max_user); EvTick 1000; EvTimer; EvRecStart]).

Lemma listening_home_reachable : reachable [] listening_home.
Proof.
  apply (run_reachable [] [EvMount (Some max_user); EvTick 1000; EvTimer; EvRecStart] start0);
    [constructor|]. vm_compute. reflexivity.
Qed.

Definition heard_home : @home rec_status :=
  default listening_home (step listening_home (EvRecResult [["tell me the weather, Max"]])).

Lemma step_refines_modes_witness :
  mode_of listening_home = Some Listening /\
  ((exists m', mode_of heard_home = Some m' /\
               spec_step Listening (ev_kind (EvRecResult [["tell me the weather, Max"]])) m') \/
   race Listening (ev_kind (EvRecResult [["tell me the weather, Max"]])) (mode_of heard_home)).
Proof.
  split; [vm_compute; reflexivity|].
  apply (step_refines_modes [] listening_home heard_home _ Listening listening_home_reachable);
    vm_compute; reflexivity.
Defined.

Lemma search_query_roundtrip_witness :
  exists base q, command_url "google-search" (Some "rain & snow") = base +:+ q /\
    (base = google_search \/ base = youtube_search) /\
    Forall (fun c => url_char c = true) (chars q) /\ decodeURIComponent q = Some "rain & snow".
Proof. apply search_query_roundtrip. left. reflexivity. Defined.
